(** * A declarative element-action executor and its recorder

    Shallow embedding of the page-automation engine ([findAndPerformAction],
    [generateActionByType], [withRetry], [performActionByConfig],
    [performActionsByConfigs]) and of the [VisualRecorder] class.

    The engine is JavaScript [async] code that talks to a host page.  It is
    embedded as a finite tree of interactions, [Prog]: every call that leaves
    the engine (DOM lookups, element operations, caller-supplied callbacks) is
    a node answered by the host, every [await] is a suspension node, and
    [console] output is a node of its own.  A host is a state machine that
    answers the calls; the interpreters [step] and [run] thread its state and
    collect the events of a run. *)

From stdpp Require Import base option list strings numbers gmap.

Open Scope string_scope.
Open Scope list_scope.
Open Scope Z_scope.

(** ** Values of the host language *)

(** A JavaScript [Error] object: its [name] and its [message]. *)
Record JsError := mkError { name : string; message : string }.

(** [new Error(msg)] *)
Definition Error (msg : string) : JsError :=
  {| name := "Error"; message := msg |}.

(** Handle of a DOM element. *)
Definition Elem := nat.

(** A function value held in a descriptor's [onError] field: either a function
    supplied by the caller, whose behaviour belongs to the host, or the arrow
    function the recorder closes over a selector,
    [(error) => console.error(`<verb> ${selector} 失败:`, error)]. *)
Inductive Callback :=
| UserFn (id : nat)
| RecorderFn (verb : string) (sel : string).

(** ** Interactions *)

(** Calls answered by the host page. *)
Inductive HostCall :=
| QuerySelector (sel : string)          (* document.querySelector(sel) *)
| Click (el : Elem)                     (* el.click() *)
| SetValue (el : Elem) (v : string)     (* el.value = v *)
| Focus (el : Elem)                     (* el.focus() *)
| TextContent (el : Elem)               (* el.textContent *)
| CallFn (id : nat) (err : JsError).    (* a caller-supplied onError(err) *)

Definition answer (c : HostCall) : Type :=
  match c with
  | QuerySelector _ => option Elem
  | TextContent _ => string
  | _ => unit
  end.

Inductive ConsoleLine :=
| ConsoleError (label : string) (err : JsError)   (* console.error(label, err) *)
| ConsoleLog (text : string).                     (* console.log(text) *)

(** Why a task gives control back to the event loop. *)
Inductive Suspension :=
| Microtask              (* an [await] waiting for a promise reaction *)
| Timer (ms : Z).        (* [setTimeout(resolve, ms)] *)

(** A program: it returns, throws, calls the host (which answers or raises),
    writes to the console, or suspends. *)
Inductive Prog (A : Type) : Type :=
| Ret (a : A)
| Throw (e : JsError)
| Host (c : HostCall) (k : JsError + answer c → Prog A)
| Console (l : ConsoleLine) (k : Prog A)
| Susp (s : Suspension) (k : Prog A).
Arguments Ret {A} a.
Arguments Throw {A} e.
Arguments Host {A} c k.
Arguments Console {A} l k.
Arguments Susp {A} s k.

Fixpoint bind {A B : Type} (p : Prog A) (f : A → Prog B) : Prog B :=
  match p with
  | Ret a => f a
  | Throw e => Throw e
  | Host c k => Host c (λ r, bind (k r) f)
  | Console l k => Console l (bind k f)
  | Susp s k => Susp s (bind k f)
  end.

#[export] Instance Prog_ret : MRet Prog := @Ret.
#[export] Instance Prog_bind : MBind Prog := λ A B f p, bind p f.

(** A host call in expression position: a raised error is thrown on. *)
Definition call (c : HostCall) : Prog (answer c) :=
  Host c (λ r, match r with inl e => Throw e | inr a => Ret a end).

(** [try { p } catch (error) { h error }]: errors of the handler itself are
    not caught. *)
Fixpoint try_catch {A : Type} (p : Prog A) (h : JsError → Prog A) : Prog A :=
  match p with
  | Ret a => Ret a
  | Throw e => h e
  | Host c k => Host c (λ r, try_catch (k r) h)
  | Console l k => Console l (try_catch k h)
  | Susp s k => Susp s (try_catch k h)
  end.

(** [await p] where [p] is the promise of an [async] call: the caller is
    resumed one reaction after the promise settles, with its value or with
    its rejection thrown. *)
Fixpoint await {A : Type} (p : Prog A) : Prog A :=
  match p with
  | Ret a => Susp Microtask (Ret a)
  | Throw e => Susp Microtask (Throw e)
  | Host c k => Host c (λ r, await (k r))
  | Console l k => Console l (await k)
  | Susp s k => Susp s (await k)
  end.

(** A pure computation that may throw, used as a statement. *)
Definition of_result {A : Type} (r : JsError + A) : Prog A :=
  match r with inl e => Throw e | inr a => Ret a end.

(** ** The engine *)

(** An action function [(el) => ...]. *)
Definition Action := Elem → Prog unit.

(** [findAndPerformAction]: the callee [action(element)] runs first (an error
    it throws is caught on the spot), then the [await] suspends once. *)
Definition findAndPerformAction (selector : string) (action : Action) : Prog bool :=
  try_catch
    (element ← call (QuerySelector selector);
     match element with
     | Some el => _ ← action el; Susp Microtask (Ret true)
     | None => Ret false
     end)
    (λ error, Console (ConsoleError "执行元素操作时出错:" error) (Ret false)).

Module ElementActionType.
Definition CLICK : string := "click".
Definition INPUT : string := "input".
Definition FOCUS : string := "focus".
Definition READ_TEXT : string := "readText".
End ElementActionType.

(** The error of the [default] branch of [generateActionByType]. *)
Definition UnsupportedOperation (type : string) : JsError :=
  Error ("不支持的操作类型: " +:+ type).

(** [generateActionByType(type, value = "")]: a [switch] over the four tags. *)
Definition generateActionByType (type : string) (value : option string)
  : JsError + Action :=
  let value := default "" value in
  if String.eqb type ElementActionType.CLICK then
    inr (λ el, call (Click el))
  else if String.eqb type ElementActionType.INPUT then
    inr (λ el, call (SetValue el value))
  else if String.eqb type ElementActionType.FOCUS then
    inr (λ el, call (Focus el))
  else if String.eqb type ElementActionType.READ_TEXT then
    inr (λ el, text ← call (TextContent el); Console (ConsoleLog text) (Ret tt))
  else
    inl (UnsupportedOperation type).

(** [findAndPerformActionByType(selector, type, value = "")] *)
Definition findAndPerformActionByType
    (selector type : string) (value : option string) : Prog bool :=
  let value := default "" value in
  action ← of_result (generateActionByType type (Some value));
  findAndPerformAction selector action.

(** [wait(ms)]: a promise resolved by a timer. *)
Definition wait (ms : Z) : Prog unit := Susp (Timer ms) (Ret tt).

(** Calling a function value of kind [Callback] with an error. *)
Definition invoke (cb : Callback) (error : JsError) : Prog unit :=
  match cb with
  | UserFn id => call (CallFn id error)
  | RecorderFn verb sel =>
      Console (ConsoleError (verb +:+ " " +:+ sel +:+ " 失败:") error) (Ret tt)
  end.

(** One iteration of the loop of [withRetry]: [true] when the [try] block
    executed [return true].  The variable [lastError] is written and never
    read, so it is left out. *)
Definition withRetry_body (action : Prog bool) (onError : option Callback)
  : Prog bool :=
  try_catch
    (result ← await action; Ret result)
    (λ error,
       _ ← match onError with
           | Some cb => invoke cb error
           | None => Ret tt
           end;
       Ret false).

(** [for (let i = 0; i <= retries; i++) { ... } return false;] from index
    [i].  The loop is bounded by [fuel]; [withRetry] supplies
    [retries + 1], which the guard never lets run out. *)
Fixpoint withRetry_loop (action : Prog bool) (retries : Z)
    (onError : option Callback) (fuel : nat) (i : Z) : Prog bool :=
  if bool_decide (i ≤ retries) then
    match fuel with
    | O => Ret false
    | S fuel' =>
        returned ← withRetry_body action onError;
        if returned : bool then Ret true
        else withRetry_loop action retries onError fuel' (i + 1)
    end
  else Ret false.

Definition withRetry (action : Prog bool) (retries : Z)
    (onError : option Callback) : Prog bool :=
  withRetry_loop action retries onError (Z.to_nat (retries + 1)) 0.

(** An [ElementConfig] object; an absent property is [None]. *)
Record ElementConfig := {
  selector : string;
  type : string;
  value : option string;
  waitBefore : option Z;
  retries : option Z;
  onError : option Callback;
}.

(** [performActionByConfig(config)] *)
Definition performActionByConfig (config : ElementConfig) : Prog bool :=
  let selector := selector config in
  let type := type config in
  let value := default "" (value config) in
  let waitBefore := default 0 (waitBefore config) in
  let retries := default 0 (retries config) in
  let onError := onError config in
  _ ← (if bool_decide (waitBefore > 0) then await (wait waitBefore) else Ret tt);
  withRetry (findAndPerformActionByType selector type (Some value)) retries onError.

Definition set_onError (o : option Callback) (c : ElementConfig) : ElementConfig :=
  {| selector := selector c; type := type c; value := value c;
     waitBefore := waitBefore c; retries := retries c; onError := o |}.

(** The host call a kind stands for: the operation its action function
    applies to the element. *)
Definition primitive_of (type : string) (value : option string) (el : Elem)
  : option HostCall :=
  if String.eqb type ElementActionType.CLICK then Some (Click el)
  else if String.eqb type ElementActionType.INPUT then
    Some (SetValue el (default "" value))
  else if String.eqb type ElementActionType.FOCUS then Some (Focus el)
  else if String.eqb type ElementActionType.READ_TEXT then Some (TextContent el)
  else None.

(** *** The engine without policy ([demo.js])

    [demo.js] holds the same [findAndPerformAction], [generateActionByType]
    and [findAndPerformActionByType]; its [performActionByConfig] reads only
    [selector], [type] and [value] and has neither delay nor retry. *)
Module Demo.

Definition performActionByConfig (config : ElementConfig) : Prog bool :=
  let selector := selector config in
  let type := type config in
  let value := default "" (value config) in
  findAndPerformActionByType selector type (Some value).

Definition plain (sel ty : string) (v : option string) : ElementConfig :=
  {| selector := sel; type := ty; value := v; waitBefore := None;
     retries := None; onError := None |}.

Definition configExamples : list ElementConfig :=
  [plain "#login-button" ElementActionType.CLICK None;
   plain "#username-input" ElementActionType.INPUT (Some "testUser");
   plain "#password-input" ElementActionType.INPUT (Some "testPassword");
   plain "#welcome-message" ElementActionType.READ_TEXT None;
   plain "#search-input" ElementActionType.FOCUS None].

End Demo.

(** ** Hosts and runs *)

(** What a run leaves behind, in order. *)
Inductive Event :=
| EvHost (c : HostCall)
| EvConsole (l : ConsoleLine)
| EvSusp (s : Suspension).

(** A host with states [D] answers every call, normally or by raising, and
    moves to a new state. *)
Definition HostOf (D : Type) : Type :=
  ∀ c : HostCall, D → D * (JsError + answer c).

(** State of an [async] task, as its promise shows it. *)
Inductive Status (A : Type) : Type :=
| Fulfilled (a : A)
| Rejected (e : JsError)
| Suspended (k : Prog A).
Arguments Fulfilled {A} a.
Arguments Rejected {A} e.
Arguments Suspended {A} k.

Section Interp.
Context {D : Type} (host : HostOf D).

(** Runs a task until it settles or reaches its next suspension point. *)
Fixpoint step {A : Type} (p : Prog A) (d : D) : D * list Event * Status A :=
  match p with
  | Ret a => (d, [], Fulfilled a)
  | Throw e => (d, [], Rejected e)
  | Host c k =>
      let '(d1, r) := host c d in
      let '(d2, evs, st) := step (k r) d1 in
      (d2, EvHost c :: evs, st)
  | Console l k =>
      let '(d1, evs, st) := step k d in
      (d1, EvConsole l :: evs, st)
  | Susp s k => (d, [EvSusp s], Suspended k)
  end.

(** Runs a task alone until it settles: nothing else is scheduled while it
    is suspended. *)
Fixpoint run {A : Type} (p : Prog A) (d : D) : D * list Event * (JsError + A) :=
  match p with
  | Ret a => (d, [], inr a)
  | Throw e => (d, [], inl e)
  | Host c k =>
      let '(d1, r) := host c d in
      let '(d2, evs, res) := run (k r) d1 in
      (d2, EvHost c :: evs, res)
  | Console l k =>
      let '(d1, evs, res) := run k d in
      (d1, EvConsole l :: evs, res)
  | Susp s k =>
      let '(d1, evs, res) := run k d in
      (d1, EvSusp s :: evs, res)
  end.

(** *** The batch: [Promise.all(configs.map(performActionByConfig))] *)

(** [configs.map(f)] calls [f] on each element in order; each call runs
    until the task's first suspension point. *)
Fixpoint start_all (ps : list (Prog bool)) (d : D) : D * list (Status bool) :=
  match ps with
  | [] => (d, [])
  | p :: ps' =>
      let '(d1, _, st) := step p d in
      let '(d2, sts) := start_all ps' d1 in
      (d2, st :: sts)
  end.

(** The event loop resumes the task at index [i], if it is suspended. *)
Definition resume (i : nat) (pool : list (Status bool)) (d : D)
  : D * list (Status bool) :=
  match pool !! i with
  | Some (Suspended k) =>
      let '(d1, _, st) := step k d in (d1, <[i := st]> pool)
  | _ => (d, pool)
  end.

(** The values of the pool when every task is fulfilled. *)
Definition all_values (pool : list (Status bool)) : option (list bool) :=
  mapM (λ st, match st with Fulfilled b => Some b | _ => None end) pool.

Definition first_rejection (pool : list (Status bool)) : option JsError :=
  head (omap (λ st, match st with Rejected e => Some e | _ => None end) pool).

(** The promise of [Promise.all]: it settles once, rejected with the first
    rejection or fulfilled with all the values in input order. *)
Definition settle (joined : option (JsError + list bool))
    (pool : list (Status bool)) : option (JsError + list bool) :=
  match joined with
  | Some o => Some o
  | None =>
      match first_rejection pool with
      | Some e => Some (inl e)
      | None => inr <$> all_values pool
      end
  end.

Record Batch := { tasks : list (Status bool);
                  joined : option (JsError + list bool) }.

(** The event loop under a schedule: the list of the task indices it
    resumes, in order. *)
Fixpoint event_loop (sched : list nat) (b : Batch) (d : D) : D * Batch :=
  match sched with
  | [] => (d, b)
  | i :: sched' =>
      let '(d1, pool) := resume i (tasks b) d in
      event_loop sched' {| tasks := pool; joined := settle (joined b) pool |} d1
  end.

Definition run_batch (ps : list (Prog bool)) (sched : list nat) (d : D)
  : D * Batch :=
  let '(d1, pool) := start_all ps d in
  event_loop sched {| tasks := pool; joined := settle None pool |} d1.

(** [performActionsByConfigs(configs)], under a schedule of the event loop;
    the result is the state of the returned promise. *)
Definition performActionsByConfigs (configs : list ElementConfig)
    (sched : list nat) (d : D) : D * option (JsError + list bool) :=
  let '(d1, b) := run_batch (performActionByConfig <$> configs) sched d in
  (d1, joined b).

End Interp.

(** [performActionsByConfigs(configs)] of [demo.js], under a schedule. *)
Definition Demo_performActionsByConfigs {D : Type} (host : HostOf D)
    (configs : list ElementConfig) (sched : list nat) (d : D)
  : D * option (JsError + list bool) :=
  let '(d1, b) := run_batch host (Demo.performActionByConfig <$> configs) sched d in
  (d1, joined b).

(** The host calls among the events of a run, in order. *)
Definition host_calls (evs : list Event) : list HostCall :=
  omap (λ ev, match ev with EvHost c => Some c | _ => None end) evs.

(** ** Observations on the events of a run *)

Definition is_primitive (ev : Event) : bool :=
  match ev with
  | EvHost (Click _) | EvHost (SetValue _ _) | EvHost (Focus _)
  | EvHost (TextContent _) => true
  | _ => false
  end.

Definition is_query (ev : Event) : bool :=
  match ev with EvHost (QuerySelector _) => true | _ => false end.

Definition is_onError (ev : Event) : bool :=
  match ev with EvHost (CallFn _ _) => true | _ => false end.

Definition is_timer (ev : Event) : bool :=
  match ev with EvSusp (Timer _) => true | _ => false end.

Definition is_console_error (ev : Event) : bool :=
  match ev with EvConsole (ConsoleError _ _) => true | _ => false end.

Definition count (f : Event → bool) (evs : list Event) : nat :=
  length (List.filter f evs).

(** ** Example hosts *)

(** A page with the elements [#a] (handle 1) and [#b] (handle 2). *)
Definition lookup_ab (sel : string) : option Elem :=
  if String.eqb sel "#a" then Some 1%nat
  else if String.eqb sel "#b" then Some 2%nat
  else None.

(** The host raises this when an element operation goes wrong. *)
Definition detached : JsError :=
  {| name := "InvalidStateError"; message := "element is detached" |}.

(** A stateless page on which every operation succeeds. *)
Definition quiet_host : HostOf unit := λ c d,
  match c with
  | QuerySelector sel => (d, inr (lookup_ab sel))
  | TextContent _ => (d, inr "hello")
  | Click _ | SetValue _ _ | Focus _ | CallFn _ _ => (d, inr tt)
  end.

(** A stateless page on which every element operation raises. *)
Definition faulty_host : HostOf unit := λ c d,
  match c with
  | QuerySelector sel => (d, inr (lookup_ab sel))
  | TextContent _ => (d, inl detached)
  | Click _ | SetValue _ _ | Focus _ => (d, inl detached)
  | CallFn _ _ => (d, inr tt)
  end.

(** A page whose element [#a] is attached only after the first lookup: the
    state counts the lookups made so far. *)
Definition late_host : HostOf nat := λ c d,
  match c with
  | QuerySelector sel =>
      (S d, inr (if bool_decide (d = 0%nat) then None else lookup_ab sel))
  | TextContent _ => (d, inr "hello")
  | Click _ | SetValue _ _ | Focus _ | CallFn _ _ => (d, inr tt)
  end.

(** A page on which clicking [#a] removes [#b]: the state tells whether [#b]
    is still attached. *)
Definition removing_host : HostOf bool := λ c d,
  match c with
  | QuerySelector sel =>
      (d, inr (if String.eqb sel "#b" then (if d then Some 2%nat else None)
               else lookup_ab sel))
  | Click el => (if bool_decide (el = 1%nat) then false else d, inr tt)
  | TextContent _ => (d, inr "hello")
  | SetValue _ _ | Focus _ | CallFn _ _ => (d, inr tt)
  end.

(** A page like [quiet_host] whose caller-supplied callbacks rethrow. *)
Definition rethrowing_host : HostOf unit := λ c d,
  match c with
  | QuerySelector sel => (d, inr (lookup_ab sel))
  | TextContent _ => (d, inr "hello")
  | Click _ | SetValue _ _ | Focus _ => (d, inr tt)
  | CallFn _ err => (d, inl err)
  end.

(** ** Example descriptors *)

Definition config (sel ty : string) : ElementConfig :=
  {| selector := sel; type := ty; value := None; waitBefore := None;
     retries := None; onError := None |}.

(** A descriptor of a kind outside the enumeration, with two retries and an
    observer. *)
Definition hover_config : ElementConfig :=
  {| selector := "#a"; type := "hover"; value := None; waitBefore := None;
     retries := Some 2; onError := Some (UserFn 7) |}.

(** A click on [#a] with [n] retries and an observer. *)
Definition click_a (n : Z) : ElementConfig :=
  {| selector := "#a"; type := "click"; value := None; waitBefore := None;
     retries := Some n; onError := Some (UserFn 7) |}.

(** A focus on an element that does not exist, with [n] retries and an
    observer. *)
Definition focus_missing (n : Z) : ElementConfig :=
  {| selector := "#missing"; type := "focus"; value := None;
     waitBefore := Some 50; retries := Some n; onError := Some (UserFn 7) |}.


(** ** The recorder *)

(** What the recorder reads of an event's target element. *)
Record Element := { elem_id : string; elem_value : string }.

Record DomEvent := { ev_type : string; target : Element }.

(** The three methods registered as listeners. *)
Inductive Handler := HandleClick | HandleInput | HandleFocus.

(** [handler.bind(this)] makes a new function object each time: [lid] is its
    identity. *)
Record Listener := { lid : nat; handler : Handler }.

Record VisualRecorder := {
  recordedConfig : list ElementConfig;
  eventListeners : gmap string Listener;
  isFirstClick : bool;
}.

(** A page with one recorder: the listeners registered on [document], in
    registration order, and the next fresh function identity. *)
Record Page := {
  recorder : VisualRecorder;
  document_listeners : list (string * Listener);
  next_lid : nat;
}.

(** [new VisualRecorder()] on a page without listeners. *)
Definition new_page : Page :=
  {| recorder := {| recordedConfig := []; eventListeners := ∅;
                    isFirstClick := true |};
     document_listeners := [];
     next_lid := 0%nat |}.

(** [_getElementSelector(element)]: the empty [id] is falsy. *)
Definition _getElementSelector (element : Element) : string :=
  if String.eqb (elem_id element) "" then "" else "#" +:+ elem_id element.

Definition push (config : ElementConfig) (r : VisualRecorder) : VisualRecorder :=
  {| recordedConfig := recordedConfig r ++ [config];
     eventListeners := eventListeners r;
     isFirstClick := isFirstClick r |}.

Definition _handleClick (event : DomEvent) (r : VisualRecorder) : VisualRecorder :=
  if isFirstClick r then
    {| recordedConfig := recordedConfig r;
       eventListeners := eventListeners r;
       isFirstClick := false |}
  else
    let selector := _getElementSelector (target event) in
    push {| selector := selector;
            type := ElementActionType.CLICK;
            value := None;
            waitBefore := Some 200;
            retries := Some 2;
            onError := Some (RecorderFn "点击" selector) |} r.

Definition _handleInput (event : DomEvent) (r : VisualRecorder) : VisualRecorder :=
  let selector := _getElementSelector (target event) in
  push {| selector := selector;
          type := ElementActionType.INPUT;
          value := Some (elem_value (target event));
          waitBefore := Some 200;
          retries := Some 2;
          onError := Some (RecorderFn "输入到" selector) |} r.

Definition _handleFocus (event : DomEvent) (r : VisualRecorder) : VisualRecorder :=
  let selector := _getElementSelector (target event) in
  push {| selector := selector;
          type := ElementActionType.FOCUS;
          value := None;
          waitBefore := Some 200;
          retries := Some 2;
          onError := Some (RecorderFn "聚焦" selector) |} r.

Definition call_handler (h : Handler) : DomEvent → VisualRecorder → VisualRecorder :=
  match h with
  | HandleClick => _handleClick
  | HandleInput => _handleInput
  | HandleFocus => _handleFocus
  end.

(** [_addEventListener(eventType, handler)] *)
Definition _addEventListener (eventType : string) (h : Handler) (pg : Page) : Page :=
  let boundHandler := {| lid := next_lid pg; handler := h |} in
  {| recorder :=
       {| recordedConfig := recordedConfig (recorder pg);
          eventListeners := <[eventType := boundHandler]> (eventListeners (recorder pg));
          isFirstClick := isFirstClick (recorder pg) |};
     document_listeners := document_listeners pg ++ [(eventType, boundHandler)];
     next_lid := S (next_lid pg) |}.

Definition startRecording (pg : Page) : Page :=
  _addEventListener "focus" HandleFocus
    (_addEventListener "input" HandleInput
       (_addEventListener "click" HandleClick pg)).

(** [document.removeEventListener(eventType, listener)] *)
Definition removeEventListener (eventType : string) (l : Listener)
    (ls : list (string * Listener)) : list (string * Listener) :=
  List.filter
    (λ '(ty, l'), negb (String.eqb ty eventType && Nat.eqb (lid l') (lid l))) ls.

Definition stopRecording (pg : Page) : Page :=
  {| recorder :=
       {| recordedConfig := recordedConfig (recorder pg);
          eventListeners := ∅;
          isFirstClick := isFirstClick (recorder pg) |};
     document_listeners :=
       foldr (λ '(ty, l) ls, removeEventListener ty l ls)
         (document_listeners pg) (map_to_list (eventListeners (recorder pg)));
     next_lid := next_lid pg |}.

Definition getRecordedConfig (pg : Page) : list ElementConfig :=
  recordedConfig (recorder pg).

(** An event that reaches [document] is handed to the listeners registered
    there for its type, in registration order.  Which events reach
    [document] is the page's affair: click and input events bubble up to it;
    the focus event of an element does not bubble, so with these listeners
    (registered without capture) it is not dispatched here at all. *)
Definition dispatch (event : DomEvent) (pg : Page) : Page :=
  {| recorder :=
       foldl (λ r '(ty, l),
                if String.eqb ty (ev_type event)
                then call_handler (handler l) event r else r)
         (recorder pg) (document_listeners pg);
     document_listeners := document_listeners pg;
     next_lid := next_lid pg |}.

Definition dispatch_all (events : list DomEvent) (pg : Page) : Page :=
  foldl (λ pg ev, dispatch ev pg) pg events.

(** What can happen to a page. *)
Inductive Op :=
| OpStart
| OpStop
| OpDispatch (event : DomEvent).

Definition exec_op (pg : Page) (op : Op) : Page :=
  match op with
  | OpStart => startRecording pg
  | OpStop => stopRecording pg
  | OpDispatch event => dispatch event pg
  end.

Definition exec_ops (ops : list Op) (pg : Page) : Page := foldl exec_op pg ops.

(** The policy fields every recorded descriptor carries. *)
Definition hardcoded_policy (c : ElementConfig) : Prop :=
  waitBefore c = Some 200 ∧ retries c = Some 2.

(** After [startRecording] on a fresh page, an event that is not a click
    leaves the listeners and the first-click flag as they are. *)
Definition armed (pg : Page) : Prop :=
  document_listeners pg =
    [("click", {| lid := 0; handler := HandleClick |});
     ("input", {| lid := 1; handler := HandleInput |});
     ("focus", {| lid := 2; handler := HandleFocus |})]
  ∧ isFirstClick (recorder pg) = true.

(** The descriptors the three handlers build for an event. *)
Definition click_descriptor (event : DomEvent) : ElementConfig :=
  {| selector := _getElementSelector (target event);
     type := ElementActionType.CLICK; value := None;
     waitBefore := Some 200; retries := Some 2;
     onError := Some (RecorderFn "点击" (_getElementSelector (target event))) |}.

Definition input_descriptor (event : DomEvent) : ElementConfig :=
  {| selector := _getElementSelector (target event);
     type := ElementActionType.INPUT;
     value := Some (elem_value (target event));
     waitBefore := Some 200; retries := Some 2;
     onError := Some (RecorderFn "输入到" (_getElementSelector (target event))) |}.

Definition focus_descriptor (event : DomEvent) : ElementConfig :=
  {| selector := _getElementSelector (target event);
     type := ElementActionType.FOCUS; value := None;
     waitBefore := Some 200; retries := Some 2;
     onError := Some (RecorderFn "聚焦" (_getElementSelector (target event))) |}.

Definition is_click (event : DomEvent) : bool := String.eqb (ev_type event) "click".

(** A listener of the document is registered under the event type of its
    handler. *)
Definition well_typed (entry : string * Listener) : Prop :=
  match handler entry.2 with
  | HandleClick => entry.1 = "click"
  | HandleInput => entry.1 = "input"
  | HandleFocus => entry.1 = "focus"
  end.

(** What holds of every page the operations can produce: function
    identities are below the next fresh one, listeners are registered under
    their own event type, and the recorder remembers listeners for the three
    event types only. *)
Definition page_inv (pg : Page) : Prop :=
  Forall (λ entry, (lid entry.2 < next_lid pg)%nat ∧ well_typed entry)
    (document_listeners pg)
  ∧ ∀ ty l, eventListeners (recorder pg) !! ty = Some l →
      ty = "click" ∨ ty = "input" ∨ ty = "focus".

(** The listeners a first [startRecording] registers on a fresh page. *)
Definition first_listeners : list (string * Listener) :=
  [("click", {| lid := 0; handler := HandleClick |});
   ("input", {| lid := 1; handler := HandleInput |});
   ("focus", {| lid := 2; handler := HandleFocus |})].

(** The number of listeners registered for an event type. *)
Definition listeners_for (ty : string) (ls : list (string * Listener)) : nat :=
  length (List.filter (λ entry, String.eqb entry.1 ty) ls).

(** Whether [stopRecording] keeps a listener of the document: no remembered
    listener has its event type and its identity. *)
Definition kept (kvs : list (string * Listener)) (entry : string * Listener) : bool :=
  forallb (λ kv, negb (String.eqb entry.1 kv.1 && Nat.eqb (lid entry.2) (lid kv.2)))
    kvs.

(** The recorder after the listeners [ls] have been offered an event. *)
Definition deliver (event : DomEvent) (ls : list (string * Listener))
    (r : VisualRecorder) : VisualRecorder :=
  foldl (λ r '(ty, l),
           if String.eqb ty (ev_type event)
           then call_handler (handler l) event r else r) r ls.

Definition button (i : string) : Element := {| elem_id := i; elem_value := "" |}.
Definition click_on (i : string) : DomEvent :=
  {| ev_type := "click"; target := button i |}.
Definition input_on (i v : string) : DomEvent :=
  {| ev_type := "input"; target := {| elem_id := i; elem_value := v |} |}.

(** ** Vocabulary of the statements *)

(** The closed enumeration of operation kinds. *)
Definition is_supported (type : string) : bool :=
  bool_decide (type ∈ [ElementActionType.CLICK; ElementActionType.INPUT;
                       ElementActionType.FOCUS; ElementActionType.READ_TEXT]).

(** The thunk [async () => findAndPerformActionByType(selector, type, value)]
    that [performActionByConfig] hands to [withRetry]. *)
Definition thunk_of (config : ElementConfig) : Prog bool :=
  findAndPerformActionByType (selector config) (type config)
    (Some (default "" (value config))).

(** Every event the program can leave satisfies [P], whatever the host
    answers. *)
Inductive emits_only {A : Type} (P : Event → Prop) : Prog A → Prop :=
| eo_ret a : emits_only P (Ret a)
| eo_throw e : emits_only P (Throw e)
| eo_host c k :
    P (EvHost c) → (∀ r, emits_only P (k r)) → emits_only P (Host c k)
| eo_console l k :
    P (EvConsole l) → emits_only P k → emits_only P (Console l k)
| eo_susp s k :
    P (EvSusp s) → emits_only P k → emits_only P (Susp s k).


Section Vocabulary.
Context {D : Type} (host : HostOf D).

(** The semantics of at most [n] iterations of the loop of [withRetry]:
    stop at the first iteration that returns [true] or lets an error
    escape. *)
Fixpoint run_attempts (body : Prog bool) (n : nat) (d : D)
  : D * list Event * (JsError + bool) :=
  match n with
  | O => (d, [], inr false)
  | S n' =>
      match run host body d with
      | (d1, evs, inr false) =>
          let '(d2, evs2, r) := run_attempts body n' d1 in (d2, evs ++ evs2, r)
      | settled => settled
      end
  end.

(** The host state after [j] runs of [body] in a row. *)
Fixpoint state_after (body : Prog bool) (j : nat) (d : D) : D :=
  match j with
  | O => d
  | S j' => (run host body (state_after body j' d)).1.1
  end.

(** The events of [j] runs of [body] in a row. *)
Fixpoint events_of (body : Prog bool) (j : nat) (d : D) : list Event :=
  match j with
  | O => []
  | S j' =>
      events_of body j' d ++ (run host body (state_after body j' d)).1.2
  end.

(** Outcome of attempt number [j + 1] of a loop that repeats [body]. *)
Definition attempt_outcome (body : Prog bool) (j : nat) (d : D) : JsError + bool :=
  (run host body (state_after body j d)).2.

(** [body] first returns [true] on attempt number [k], every earlier
    attempt having returned [false]. *)
Definition first_success_on (body : Prog bool) (k : nat) (d : D) : Prop :=
  (1 ≤ k)%nat ∧
  (∀ j, (j < k - 1)%nat → attempt_outcome body j d = inr false) ∧
  attempt_outcome body (k - 1) d = inr true.

(** Whether the lookup that opens attempt number [j + 1] finds an
    element. *)
Definition resolved_on (sel : string) (body : Prog bool) (j : nat) (d : D) : bool :=
  match (host (QuerySelector sel) (state_after body j d)).2 with
  | inr (Some _) => true
  | _ => false
  end.

(** The program cannot end in a rejection on this host. *)
Inductive never_rejects {A : Type} : Prog A → Prop :=
| nr_ret a : never_rejects (Ret a)
| nr_host c k :
    (∀ d, never_rejects (k (host c d).2)) → never_rejects (Host c k)
| nr_console l k : never_rejects k → never_rejects (Console l k)
| nr_susp s k : never_rejects k → never_rejects (Susp s k).

(** A state that the task of program [p] can be in: after its first
    segment, or after resuming a state it can be in. *)
Inductive reaches {A : Type} (p : Prog A) : Status A → Prop :=
| reaches_start d : reaches p (step host p d).2
| reaches_resume k d :
    reaches p (Suspended k) → reaches p (step host k d).2.

(** Running a task state one segment further, from host state [d]. *)
Definition resume_at {A : Type} (st : Status A) (d : D) : Status A :=
  match st with
  | Suspended k => (step host k d).2
  | _ => st
  end.

(** The state of the task of program [p] after it was started and resumed
    in the host states [ds], in that order. *)
Definition replay {A : Type} (p : Prog A) (ds : list D) : Status A :=
  foldl resume_at (Suspended p) ds.

(** The host states in which the tasks of a batch are run, task by task:
    [start_visits] gives the state in which [map] starts each task,
    [loop_visits] adds, for every entry of the schedule that finds its task
    suspended, the state in which the event loop resumes it. *)
Fixpoint start_visits (ps : list (Prog bool)) (d : D) : list (list D) :=
  match ps with
  | [] => []
  | p :: ps' => [d] :: start_visits ps' (step host p d).1.1
  end.

Fixpoint loop_visits (sched : list nat) (pool : list (Status bool))
    (visits : list (list D)) (d : D) : list (list D) :=
  match sched with
  | [] => visits
  | i :: sched' =>
      let visits' :=
        match pool !! i with
        | Some (Suspended _) => alter (λ ds, ds ++ [d]) i visits
        | _ => visits
        end in
      let '(d1, pool1) := resume host i pool d in
      loop_visits sched' pool1 visits' d1
  end.

Definition batch_visits (ps : list (Prog bool)) (sched : list nat) (d : D)
  : list (list D) :=
  let '(d1, pool) := start_all host ps d in
  loop_visits sched pool (start_visits ps d) d1.

(** No caller-supplied callback raises. *)
Definition observers_return : Prop :=
  ∀ id err d, (host (CallFn id err) d).2 = inr tt.




End Vocabulary.

(** The events one call of the observer leaves, when it returns. *)
Definition observer_events (onError : option Callback) (err : JsError) : list Event :=
  match onError with
  | None => []
  | Some (UserFn id) => [EvHost (CallFn id err)]
  | Some (RecorderFn verb sel) =>
      [EvConsole (ConsoleError (verb +:+ " " +:+ sel +:+ " 失败:") err)]
  end.

(** The events of the delay that precedes the retry loop. *)
Definition wait_events (config : ElementConfig) : list Event :=
  let ms := default 0 (waitBefore config) in
  if bool_decide (ms > 0) then [EvSusp (Timer ms); EvSusp Microtask] else [].

(** The effective number of retries of a descriptor. *)
Definition retries_of (config : ElementConfig) : Z := default 0 (retries config).

(** The loop body [performActionByConfig] repeats for a descriptor. *)
Definition body_of (config : ElementConfig) : Prog bool :=
  withRetry_body (thunk_of config) (onError config).

Definition error_label : string := "执行元素操作时出错:".

(** A program without timers. *)
Definition untimed {A : Type} (p : Prog A) : Prop :=
  emits_only (λ ev, is_timer ev = false) p.

(** The loop [performActionByConfig] runs for a descriptor, after the
    defaults are filled in. *)
Definition retry_loop_of (config : ElementConfig) : Prog bool :=
  withRetry (thunk_of config) (retries_of config) (onError config).

(** Setting one optional field of a descriptor. *)
Definition set_value (v : string) (c : ElementConfig) : ElementConfig :=
  {| selector := selector c; type := type c; value := Some v;
     waitBefore := waitBefore c; retries := retries c; onError := onError c |}.

Definition set_waitBefore (ms : Z) (c : ElementConfig) : ElementConfig :=
  {| selector := selector c; type := type c; value := value c;
     waitBefore := Some ms; retries := retries c; onError := onError c |}.

Definition set_retries (n : Z) (c : ElementConfig) : ElementConfig :=
  {| selector := selector c; type := type c; value := value c;
     waitBefore := waitBefore c; retries := Some n; onError := onError c |}.

(** A task state from which no rejection can come. *)
Definition status_ok {D : Type} (host : HostOf D) {A : Type} (st : Status A) : Prop :=
  match st with
  | Fulfilled _ => True
  | Rejected _ => False
  | Suspended k => never_rejects host k
  end.

(** What a task in state [st] returns when it is run alone from [d]. *)
Definition outcome_of {D : Type} (host : HostOf D) {A : Type}
    (st : Status A) (d : D) : JsError + A :=
  match st with
  | Fulfilled a => inr a
  | Rejected e => inl e
  | Suspended k => (run host k d).2
  end.

(** The invariant of a batch over the programs [ps]: slot [i] holds a state
    of the task of [ps !! i], no task can reject, and the joined promise is
    fulfilled exactly when every task is. *)
Definition batch_inv {D : Type} (host : HostOf D)
    (ps : list (Prog bool)) (b : Batch) : Prop :=
  Forall2 (reaches host) ps (tasks b)
  ∧ Forall (status_ok host) (tasks b)
  ∧ joined b = inr <$> all_values (tasks b).

(** The state of the promise of [Promise.all] over a single task. *)
Definition joined_of (st : Status bool) : option (JsError + list bool) :=
  match st with
  | Fulfilled v => Some (inr [v])
  | Rejected e => Some (inl e)
  | Suspended _ => None
  end.

(** ** Laws of the interpreters *)

Ltac unfold_monad := unfold mbind, mret, Prog_bind, Prog_ret in *.

Section RunLaws.
Context {D : Type} (host : HostOf D).

Lemma run_bind {A B : Type} (p : Prog A) (f : A → Prog B) (d : D) :
  run host (bind p f) d =
    match run host p d with
    | (d1, evs1, inl e) => (d1, evs1, inl e)
    | (d1, evs1, inr a) =>
        let '(d2, evs2, r) := run host (f a) d1 in (d2, evs1 ++ evs2, r)
    end.
Proof.
  revert d; induction p as [a|e|c k IH|l k IH|s k IH]; intros d; simpl.
  - by destruct (run host (f a) d) as [[d2 evs2] r].
  - done.
  - destruct (host c d) as [d1 r]. rewrite IH.
    destruct (run host (k r) d1) as [[d2 evs2] [e|a]]; [done|].
    by destruct (run host (f a) d2) as [[d3 evs3] r3].
  - rewrite IH.
    destruct (run host k d) as [[d2 evs2] [e|a]]; [done|].
    by destruct (run host (f a) d2) as [[d3 evs3] r3].
  - rewrite IH.
    destruct (run host k d) as [[d2 evs2] [e|a]]; [done|].
    by destruct (run host (f a) d2) as [[d3 evs3] r3].
Qed.

Lemma run_try_catch {A : Type} (p : Prog A) (h : JsError → Prog A) (d : D) :
  run host (try_catch p h) d =
    match run host p d with
    | (d1, evs1, inl e) =>
        let '(d2, evs2, r) := run host (h e) d1 in (d2, evs1 ++ evs2, r)
    | (d1, evs1, inr a) => (d1, evs1, inr a)
    end.
Proof.
  revert d; induction p as [a|e|c k IH|l k IH|s k IH]; intros d; simpl.
  - done.
  - by destruct (run host (h e) d) as [[d2 evs2] r].
  - destruct (host c d) as [d1 r]. rewrite IH.
    destruct (run host (k r) d1) as [[d2 evs2] [e|a]]; [|done].
    by destruct (run host (h e) d2) as [[d3 evs3] r3].
  - rewrite IH.
    destruct (run host k d) as [[d2 evs2] [e|a]]; [|done].
    by destruct (run host (h e) d2) as [[d3 evs3] r3].
  - rewrite IH.
    destruct (run host k d) as [[d2 evs2] [e|a]]; [|done].
    by destruct (run host (h e) d2) as [[d3 evs3] r3].
Qed.

Lemma run_await {A : Type} (p : Prog A) (d : D) :
  run host (await p) d =
    let '(d1, evs, r) := run host p d in (d1, evs ++ [EvSusp Microtask], r).
Proof.
  revert d; induction p as [a|e|c k IH|l k IH|s k IH]; intros d; simpl; try done.
  - destruct (host c d) as [d1 r]. rewrite IH.
    by destruct (run host (k r) d1) as [[d2 evs2] r2].
  - rewrite IH. by destruct (run host k d) as [[d2 evs2] r2].
  - rewrite IH. by destruct (run host k d) as [[d2 evs2] r2].
Qed.

(** A run is the first segment of the task followed by the run of what
    remains. *)
Lemma run_step {A : Type} (p : Prog A) (d : D) :
  run host p d =
    match step host p d with
    | (d1, evs, Fulfilled a) => (d1, evs, inr a)
    | (d1, evs, Rejected e) => (d1, evs, inl e)
    | (d1, evs, Suspended k) =>
        let '(d2, evs2, r) := run host k d1 in (d2, evs ++ evs2, r)
    end.
Proof.
  revert d; induction p as [a|e|c k IH|l k IH|s k IH]; intros d; simpl; try done.
  - destruct (host c d) as [d1 r]. rewrite IH.
    destruct (step host (k r) d1) as [[d2 evs2] [a|e|k']]; try done.
    by destruct (run host k' d2) as [[d3 evs3] r3].
  - rewrite IH.
    destruct (step host k d) as [[d2 evs2] [a|e|k']]; try done.
    by destruct (run host k' d2) as [[d3 evs3] r3].
Qed.

End RunLaws.

Lemma count_app (f : Event → bool) (l1 l2 : list Event) :
  count f (l1 ++ l2) = (count f l1 + count f l2)%nat.
Proof. unfold count. by rewrite List.filter_app, length_app. Qed.

Lemma count_cons (f : Event → bool) (ev : Event) (l : list Event) :
  count f (ev :: l) = ((if f ev then 1 else 0) + count f l)%nat.
Proof.
  unfold count; simpl. by destruct (f ev).
Qed.

Lemma count_nil (f : Event → bool) : count f [] = 0%nat.
Proof. done. Qed.

Create Rewrite HintDb count_db.
#[export] Hint Rewrite count_app count_cons count_nil : count_db.


(** ** The single-action executor *)

Section Executor.
Context {D : Type} (host : HostOf D).

Lemma run_findAndPerformAction (selector : string) (action : Action) (d : D) :
  run host (findAndPerformAction selector action) d =
    match host (QuerySelector selector) d with
    | (d1, inl e) =>
        (d1, [EvHost (QuerySelector selector);
              EvConsole (ConsoleError error_label e)], inr false)
    | (d1, inr None) => (d1, [EvHost (QuerySelector selector)], inr false)
    | (d1, inr (Some el)) =>
        match run host (action el) d1 with
        | (d2, evs, inl e) =>
            (d2, EvHost (QuerySelector selector) :: evs
                   ++ [EvConsole (ConsoleError error_label e)], inr false)
        | (d2, evs, inr _) =>
            (d2, EvHost (QuerySelector selector) :: evs
                   ++ [EvSusp Microtask], inr true)
        end
    end.
Proof.
  unfold findAndPerformAction. rewrite run_try_catch.
  unfold_monad. simpl.
  destruct (host (QuerySelector selector) d) as [d1 [e|[el|]]]; simpl;
    [reflexivity| |reflexivity].
  rewrite run_bind.
  destruct (run host (action el) d1) as [[d2 evs] [e|[]]]; simpl;
    reflexivity.
Qed.

(** C6. [findAndPerformAction] never raises.  Its run is determined by the
    lookup and by the run of the action: [false] after a lookup that finds
    nothing (the action is not invoked) or that itself raises, [false] with
    the fault written to [console.error] when the action raises, and [true]
    otherwise. *)
Theorem findAndPerformAction_never_raises
    (selector : string) (action : Action) (d : D) :
  run host (findAndPerformAction selector action) d =
    match host (QuerySelector selector) d with
    | (d1, inl e) =>
        (d1, [EvHost (QuerySelector selector);
              EvConsole (ConsoleError error_label e)], inr false)
    | (d1, inr None) => (d1, [EvHost (QuerySelector selector)], inr false)
    | (d1, inr (Some el)) =>
        match run host (action el) d1 with
        | (d2, evs, inl e) =>
            (d2, EvHost (QuerySelector selector) :: evs
                   ++ [EvConsole (ConsoleError error_label e)], inr false)
        | (d2, evs, inr _) =>
            (d2, EvHost (QuerySelector selector) :: evs
                   ++ [EvSusp Microtask], inr true)
        end
    end
  ∧ ∃ b : bool, (run host (findAndPerformAction selector action) d).2 = inr b.
Proof.
  split; [apply run_findAndPerformAction|].
  rewrite run_findAndPerformAction.
  destruct (host (QuerySelector selector) d) as [d1 [e|[el|]]]; eauto.
  destruct (run host (action el) d1) as [[d2 evs] [e|[]]]; eauto.
Qed.

End Executor.

(** ** The retry wrapper *)

Section Retry.
Context {D : Type} (host : HostOf D).

Lemma run_withRetry_loop (action : Prog bool) (retries : Z)
    (onError : option Callback) (fuel : nat) (i : Z) (d : D) :
  (Z.to_nat (retries + 1 - i) ≤ fuel)%nat →
  run host (withRetry_loop action retries onError fuel i) d =
    run_attempts host (withRetry_body action onError)
      (Z.to_nat (retries + 1 - i)) d.
Proof.
  revert i d; induction fuel as [|fuel IH]; intros i d Hfuel.
  - replace (Z.to_nat (retries + 1 - i)) with 0%nat by lia.
    simpl. case_bool_decide; [lia|done].
  - simpl. case_bool_decide as Hi.
    + replace (Z.to_nat (retries + 1 - i))
        with (S (Z.to_nat (retries + 1 - (i + 1)))) by lia.
      simpl. unfold_monad. rewrite run_bind.
      destruct (run host (withRetry_body action onError) d)
        as [[d1 evs] [e|[|]]]; simpl; [done|by rewrite app_nil_r|].
      rewrite IH by lia. done.
    + replace (Z.to_nat (retries + 1 - i)) with 0%nat by lia. done.
Qed.

(** The loop of [withRetry] makes [retries + 1] iterations at most. *)
Lemma run_withRetry (action : Prog bool) (retries : Z)
    (onError : option Callback) (d : D) :
  run host (withRetry action retries onError) d =
    run_attempts host (withRetry_body action onError)
      (Z.to_nat (retries + 1)) d.
Proof.
  unfold withRetry. rewrite run_withRetry_loop by lia.
  by replace (retries + 1 - 0) with (retries + 1) by lia.
Qed.

(** The bound of the loop is never what stops it: more fuel changes
    nothing. *)
Lemma withRetry_loop_fuel (action : Prog bool) (retries : Z)
    (onError : option Callback) (fuel : nat) (d : D) :
  (Z.to_nat (retries + 1) ≤ fuel)%nat →
  run host (withRetry_loop action retries onError fuel 0) d =
    run host (withRetry action retries onError) d.
Proof.
  intros Hfuel. unfold withRetry.
  rewrite !run_withRetry_loop by lia. done.
Qed.

(** One iteration: the thunk is awaited; its [false] and its [true] are
    passed on, its error goes to the observer. *)
Lemma run_withRetry_body (action : Prog bool) (onError : option Callback) (d : D) :
  run host (withRetry_body action onError) d =
    match run host action d with
    | (d1, evs, inr b) => (d1, evs ++ [EvSusp Microtask], inr b)
    | (d1, evs, inl e) =>
        match onError with
        | None => (d1, evs ++ [EvSusp Microtask], inr false)
        | Some cb =>
            let '(d2, evs2, r) := run host (invoke cb e) d1 in
            (d2, (evs ++ [EvSusp Microtask]) ++ evs2,
             match r with inl e' => inl e' | inr _ => inr false end)
        end
    end.
Proof.
  unfold withRetry_body. rewrite run_try_catch. unfold_monad.
  rewrite run_bind, run_await.
  destruct (run host action d) as [[d1 evs] [e|b]]; simpl.
  - rewrite run_bind. destruct onError as [cb|]; simpl.
    + destruct (run host (invoke cb e) d1) as [[d2 evs2] [e'|[]]]; simpl;
        [done|by rewrite app_nil_r].
    + by rewrite !app_nil_r.
  - by rewrite app_nil_r.
Qed.

End Retry.

(** C10. With a negative [retries] the loop of [withRetry] is not entered:
    the wrapper is the program that returns [false], so it neither invokes
    the thunk nor the observer, and its run leaves no event. *)
Theorem withRetry_negative_retries
    (action : Prog bool) (retries : Z) (onError : option Callback) :
  retries < 0 →
  withRetry action retries onError = Ret false
  ∧ ∀ (D : Type) (host : HostOf D) (d : D),
      run host (withRetry action retries onError) d = (d, [], inr false).
Proof.
  intros Hneg.
  assert (Heq : withRetry action retries onError = Ret false).
  { unfold withRetry.
    destruct (Z.to_nat (retries + 1)); simpl; case_bool_decide; done || lia. }
  split; [done|]. intros D host d. by rewrite Heq.
Qed.

Lemma withRetry_negative_retries_witness :
  withRetry (findAndPerformActionByType "#a" "click" None) (-1) (Some (UserFn 0))
    = Ret false
  ∧ run quiet_host
      (withRetry (findAndPerformActionByType "#a" "click" None) (-1)
         (Some (UserFn 0))) tt = (tt, [], inr false).
Proof.
  destruct (withRetry_negative_retries
              (findAndPerformActionByType "#a" "click" None) (-1)
              (Some (UserFn 0))) as [H1 H2]; [lia|].
  split; [exact H1|exact (H2 unit quiet_host tt)].
Defined.

(** ** Descriptors *)

(** C8. A missing optional field behaves as its documented default: filling
    [value] with [""], [waitBefore] with [0] or [retries] with [0] where the
    field is absent (and leaving it alone where it is present) gives the same
    program, hence the same behaviour on every host; so do the default
    parameters of the functions below.  A missing [onError] is the absence of
    an observer itself. *)
Theorem missing_fields_take_defaults (c : ElementConfig) :
  performActionByConfig c
    = performActionByConfig (set_value (default "" (value c)) c)
  ∧ performActionByConfig c
    = performActionByConfig (set_waitBefore (default 0 (waitBefore c)) c)
  ∧ performActionByConfig c
    = performActionByConfig (set_retries (default 0 (retries c)) c)
  ∧ (∀ ty, generateActionByType ty None = generateActionByType ty (Some ""))
  ∧ (∀ sel ty, findAndPerformActionByType sel ty None
               = findAndPerformActionByType sel ty (Some "")).
Proof.
  destruct c as [sel ty [v|] [w|] [r|] cb]; repeat split; reflexivity.
Qed.

Lemma performActionByConfig_unfold (c : ElementConfig) :
  performActionByConfig c =
    if bool_decide (default 0 (waitBefore c) > 0)
    then Susp (Timer (default 0 (waitBefore c)))
           (Susp Microtask (retry_loop_of c))
    else retry_loop_of c.
Proof.
  unfold performActionByConfig. by case_bool_decide.
Qed.

Section Untimed.
Context {D : Type} (host : HostOf D).

Lemma emits_only_run {A : Type} (P : Event → Prop) (p : Prog A) (d : D) :
  emits_only P p → Forall P (run host p d).1.2.
Proof.
  intros Hp; revert d; induction Hp as [a|e|c k Hc _ IH|l k Hl _ IH|s k Hs _ IH];
    intros d; simpl; try by constructor.
  - destruct (host c d) as [d1 r]. specialize (IH r d1).
    destruct (run host (k r) d1) as [[d2 evs] res]. by constructor.
  - specialize (IH d). destruct (run host k d) as [[d2 evs] res].
    by constructor.
  - specialize (IH d). destruct (run host k d) as [[d2 evs] res].
    by constructor.
Qed.

Lemma count_zero (f : Event → bool) (evs : list Event) :
  Forall (λ ev, f ev = false) evs → count f evs = 0%nat.
Proof.
  induction 1 as [|ev evs Hev _ IH]; [done|].
  rewrite count_cons, Hev, IH. done.
Qed.

End Untimed.

Lemma emits_only_bind {A B : Type} (P : Event → Prop) (p : Prog A) (f : A → Prog B) :
  emits_only P p → (∀ a, emits_only P (f a)) → emits_only P (bind p f).
Proof. induction 1; intros Hf; simpl; try constructor; auto. Qed.

Lemma emits_only_try_catch {A : Type} (P : Event → Prop) (p : Prog A)
    (h : JsError → Prog A) :
  emits_only P p → (∀ e, emits_only P (h e)) → emits_only P (try_catch p h).
Proof. induction 1; intros Hh; simpl; try constructor; auto. Qed.

Lemma emits_only_await {A : Type} (P : Event → Prop) (p : Prog A) :
  P (EvSusp Microtask) → emits_only P p → emits_only P (await p).
Proof. intros HP; induction 1; simpl; repeat constructor; auto. Qed.

Lemma emits_only_call (P : Event → Prop) (c : HostCall) :
  P (EvHost c) → emits_only P (call c).
Proof. intros HP. constructor; [done|]. intros [e|a]; constructor. Qed.

Ltac emits_call :=
  lazymatch goal with
  | |- emits_only _ (call ?c) => apply (emits_only_call _ c); done
  end.

Lemma untimed_findAndPerformAction (selector : string) (action : Action) :
  (∀ el, untimed (action el)) → untimed (findAndPerformAction selector action).
Proof.
  intros Hact. apply emits_only_try_catch.
  - apply emits_only_bind; [emits_call|].
    intros [el|]; [|constructor].
    apply emits_only_bind; [apply Hact|]. intros _. by repeat constructor.
  - intros e. by repeat constructor.
Qed.

Lemma untimed_generated (ty : string) (v : option string) (action : Action) :
  generateActionByType ty v = inr action → ∀ el, untimed (action el).
Proof.
  unfold generateActionByType. intros Hgen el.
  unfold untimed; repeat case_match; simplify_eq; try emits_call.
  constructor; [done|]. intros [e|text]; by repeat constructor.
Qed.

Lemma untimed_thunk (c : ElementConfig) : untimed (thunk_of c).
Proof.
  unfold thunk_of, findAndPerformActionByType. unfold_monad.
  destruct (generateActionByType (type c) _) as [e|action] eqn:Hgen; simpl.
  - constructor.
  - apply untimed_findAndPerformAction. by eapply untimed_generated.
Qed.

Lemma untimed_withRetry_body (action : Prog bool) (onError : option Callback) :
  untimed action → untimed (withRetry_body action onError).
Proof.
  intros Hact. apply emits_only_try_catch.
  - apply emits_only_bind; [by apply emits_only_await|]. intros b; constructor.
  - intros e. apply emits_only_bind; [|intros; constructor].
    destruct onError as [[id|verb sel]|]; simpl.
    + emits_call.
    + by repeat constructor.
    + constructor.
Qed.

Lemma untimed_withRetry (action : Prog bool) (n : Z) (onError : option Callback) :
  untimed action → untimed (withRetry action n onError).
Proof.
  intros Hact. unfold withRetry. generalize 0 as i.
  induction (Z.to_nat (n + 1)) as [|fuel IH]; intros i; simpl;
    case_bool_decide; try constructor.
  apply emits_only_bind; [by apply untimed_withRetry_body|].
  intros [|]; [constructor|apply IH].
Qed.

(** C7. When [waitBefore] is positive the run of a descriptor opens with
    exactly one timer of that length, followed by the whole retry loop, in
    which no timer occurs; when it is [0] (or absent) no timer occurs at
    all. *)
Theorem wait_once_before_first_attempt {D : Type} (host : HostOf D)
    (c : ElementConfig) (d : D) :
  let ms := default 0 (waitBefore c) in
  let '(d1, loop_evs, res) := run host (retry_loop_of c) d in
  count is_timer loop_evs = 0%nat
  ∧ run host (performActionByConfig c) d =
      if bool_decide (ms > 0)
      then (d1, EvSusp (Timer ms) :: EvSusp Microtask :: loop_evs, res)
      else (d1, loop_evs, res).
Proof.
  intros ms.
  pose proof (emits_only_run host _ (retry_loop_of c) d
                (untimed_withRetry _ _ _ (untimed_thunk c))) as Hloop.
  rewrite performActionByConfig_unfold. fold ms.
  destruct (run host (retry_loop_of c) d) as [[d1 loop_evs] res] eqn:Hrun.
  split; [by apply count_zero|].
  case_bool_decide; simpl; by rewrite ?Hrun.
Qed.

(** ** The recorder *)

Lemma call_handler_hardcoded (h : Handler) (event : DomEvent) (r : VisualRecorder) :
  Forall hardcoded_policy (recordedConfig r) →
  Forall hardcoded_policy (recordedConfig (call_handler h event r)).
Proof.
  intros Hr. destruct h; simpl; unfold _handleClick, _handleInput, _handleFocus.
  - destruct (isFirstClick r); simpl; [done|].
    apply Forall_app; split; [done|]. by repeat constructor.
  - simpl. apply Forall_app; split; [done|]. by repeat constructor.
  - simpl. apply Forall_app; split; [done|]. by repeat constructor.
Qed.

Lemma dispatch_hardcoded (event : DomEvent) (pg : Page) :
  Forall hardcoded_policy (getRecordedConfig pg) →
  Forall hardcoded_policy (getRecordedConfig (dispatch event pg)).
Proof.
  unfold getRecordedConfig, dispatch; simpl.
  generalize (recorder pg) as r.
  induction (document_listeners pg) as [|[ty l] ls IH]; intros r Hr; simpl;
    [done|].
  apply IH. destruct (String.eqb ty (ev_type event)); [|done].
  by apply call_handler_hardcoded.
Qed.

Lemma exec_op_hardcoded (op : Op) (pg : Page) :
  Forall hardcoded_policy (getRecordedConfig pg) →
  Forall hardcoded_policy (getRecordedConfig (exec_op pg op)).
Proof.
  destruct op; simpl; [done|done|apply dispatch_hardcoded].
Qed.

Lemma startRecording_armed : armed (startRecording new_page).
Proof. split; lazy; reflexivity. Qed.

Lemma dispatch_other_armed (event : DomEvent) (pg : Page) :
  ev_type event ≠ "click" → armed pg → armed (dispatch event pg).
Proof.
  intros Hty [Hls Hfirst]. split; [done|].
  unfold dispatch; cbn -[String.eqb]. rewrite Hls; cbn -[String.eqb].
  destruct (String.eqb_spec "click" (ev_type event)) as [Heq|_]; [by subst|].
  destruct (String.eqb "input" (ev_type event)),
    (String.eqb "focus" (ev_type event)); done.
Qed.

Lemma dispatch_click_armed (event : DomEvent) (pg : Page) :
  ev_type event = "click" → armed pg →
  getRecordedConfig (dispatch event pg) = getRecordedConfig pg.
Proof.
  intros Hty [Hls Hfirst].
  unfold getRecordedConfig, dispatch; cbn -[String.eqb].
  rewrite Hls, Hty; cbn. unfold _handleClick. by rewrite Hfirst.
Qed.

Lemma dispatch_all_armed (events : list DomEvent) (pg : Page) :
  Forall (λ ev, ev_type ev ≠ "click") events → armed pg →
  armed (dispatch_all events pg).
Proof.
  intros Hevs; revert pg.
  induction Hevs as [|ev evs Hev _ IH]; intros pg Hpg; simpl; [done|].
  apply IH. by apply dispatch_other_armed.
Qed.

(** C9. Whatever is done to a page (starting, stopping, events), every
    descriptor in the recorder's list has [waitBefore = 200] and
    [retries = 2]; and after [startRecording] on a fresh recorder the first
    click event adds no descriptor. *)
Theorem recorder_first_click_and_policy :
  (∀ ops : list Op,
     Forall hardcoded_policy (getRecordedConfig (exec_ops ops new_page)))
  ∧ (∀ (pre : list DomEvent) (e : DomEvent),
       Forall (λ ev, ev_type ev ≠ "click") pre →
       ev_type e = "click" →
       getRecordedConfig (dispatch_all (pre ++ [e]) (startRecording new_page))
       = getRecordedConfig (dispatch_all pre (startRecording new_page))).
Proof.
  split.
  - intros ops. unfold exec_ops.
    assert (Hnew : Forall hardcoded_policy (getRecordedConfig new_page))
      by constructor.
    revert Hnew. generalize new_page as pg.
    induction ops as [|op ops IH]; intros pg Hpg; simpl; [done|].
    apply IH. by apply exec_op_hardcoded.
  - intros pre e Hpre He. unfold dispatch_all. rewrite foldl_app. simpl.
    apply dispatch_click_armed; [done|].
    apply dispatch_all_armed; [done|]. apply startRecording_armed.
Qed.

Lemma recorder_first_click_and_policy_witness :
  Forall hardcoded_policy
    (getRecordedConfig
       (exec_ops [OpStart; OpDispatch (click_on "go");
                  OpDispatch (input_on "user" "bob");
                  OpDispatch (click_on "go"); OpStop] new_page))
  ∧ getRecordedConfig
      (dispatch_all ([input_on "user" "bob"] ++ [click_on "go"])
         (startRecording new_page))
    = getRecordedConfig
        (dispatch_all [input_on "user" "bob"] (startRecording new_page)).
Proof.
  destruct recorder_first_click_and_policy as [Hpolicy Hfirst].
  split; [apply Hpolicy|].
  apply Hfirst; [|reflexivity].
  constructor; [discriminate|constructor].
Defined.

(** ** Runs of a descriptor *)

Lemma generateActionByType_default (ty : string) (v : option string) :
  generateActionByType ty (Some (default "" v)) = generateActionByType ty v.
Proof. by destruct v. Qed.

Lemma generateActionByType_unsupported (ty : string) (v : option string) :
  is_supported ty = false →
  generateActionByType ty v = inl (UnsupportedOperation ty).
Proof.
  unfold is_supported, generateActionByType. intros Hty.
  apply bool_decide_eq_false in Hty.
  unfold ElementActionType.CLICK, ElementActionType.INPUT,
    ElementActionType.FOCUS, ElementActionType.READ_TEXT in *.
  repeat match goal with
         | |- context [String.eqb ty ?s] =>
             destruct (String.eqb_spec ty s) as [->|_];
             [exfalso; apply Hty; set_solver|]
         end.
  done.
Qed.

Lemma generateActionByType_supported (ty : string) (v : option string)
    (action : Action) :
  generateActionByType ty v = inr action → is_supported ty = true.
Proof.
  intros Hgen. destruct (is_supported ty) eqn:Hty; [done|].
  by rewrite generateActionByType_unsupported in Hgen.
Qed.

Lemma generateActionByType_supported_ex (ty : string) (v : option string) :
  is_supported ty = true → ∃ action, generateActionByType ty v = inr action.
Proof.
  unfold is_supported. intros Hty. apply bool_decide_eq_true in Hty.
  repeat (apply elem_of_cons in Hty as [->|Hty]; [eexists; reflexivity|]).
  by apply elem_of_nil in Hty.
Qed.

Lemma thunk_of_unsupported (c : ElementConfig) :
  is_supported (type c) = false →
  thunk_of c = Throw (UnsupportedOperation (type c)).
Proof.
  intros Hty. unfold thunk_of, findAndPerformActionByType. unfold_monad.
  by rewrite generateActionByType_unsupported.
Qed.

Lemma thunk_of_supported (c : ElementConfig) (action : Action) :
  generateActionByType (type c) (value c) = inr action →
  thunk_of c = findAndPerformAction (selector c) action.
Proof.
  intros Hgen. unfold thunk_of, findAndPerformActionByType. unfold_monad.
  simpl. by rewrite generateActionByType_default, Hgen.
Qed.

Section Attempts.
Context {D : Type} (host : HostOf D).

Lemma run_performActionByConfig (c : ElementConfig) (d : D) :
  run host (performActionByConfig c) d =
    let '(d1, evs, res) := run host (retry_loop_of c) d in
    (d1, wait_events c ++ evs, res).
Proof.
  rewrite performActionByConfig_unfold. unfold wait_events.
  case_bool_decide; simpl;
    by destruct (run host (retry_loop_of c) d) as [[d1 evs] res].
Qed.

Lemma run_retry_loop_of (c : ElementConfig) (d : D) :
  run host (retry_loop_of c) d =
    run_attempts host (body_of c) (Z.to_nat (retries_of c + 1)) d.
Proof. apply run_withRetry. Qed.

(** Attempts that all return [false] and leave the same events. *)
Lemma run_attempts_const (body : Prog bool) (evs0 : list Event) (n : nat) (d : D) :
  (∀ d, ∃ d1, run host body d = (d1, evs0, inr false)) →
  ∃ d', run_attempts host body n d = (d', concat (replicate n evs0), inr false).
Proof.
  intros Hbody; revert d; induction n as [|n IH]; intros d; simpl; [eauto|].
  destruct (Hbody d) as [d1 ->]. destruct (IH d1) as [d2 ->]. eauto.
Qed.

(** Attempts that all return [false] and each leave [m] events of a
    kind. *)
Lemma run_attempts_count (body : Prog bool) (f : Event → bool) (m n : nat) (d : D) :
  (∀ d, (run host body d).2 = inr false ∧ count f (run host body d).1.2 = m) →
  (run_attempts host body n d).2 = inr false
  ∧ count f (run_attempts host body n d).1.2 = (n * m)%nat.
Proof.
  intros Hbody; revert d; induction n as [|n IH]; intros d; simpl; [done|].
  destruct (Hbody d) as [Hres Hcount].
  destruct (run host body d) as [[d1 evs] res]; simpl in *; subst res.
  destruct (IH d1) as [Hres' Hcount'].
  destruct (run_attempts host body n d1) as [[d2 evs2] res2]; simpl in *.
  split; [done|]. rewrite count_app. lia.
Qed.

Lemma count_concat_replicate (f : Event → bool) (n : nat) (evs : list Event) :
  count f (concat (replicate n evs)) = (n * count f evs)%nat.
Proof.
  induction n as [|n IH]; simpl; [done|]. rewrite count_app, IH. lia.
Qed.

(** One iteration on a descriptor of an unsupported kind. *)
Lemma run_body_unsupported (c : ElementConfig) (d : D) :
  is_supported (type c) = false →
  observers_return host →
  ∃ d1, run host (body_of c) d =
          (d1, EvSusp Microtask
                 :: observer_events (onError c) (UnsupportedOperation (type c)),
           inr false).
Proof.
  intros Hty Hobs. unfold body_of. rewrite thunk_of_unsupported by done.
  destruct (onError c) as [[id|verb sel]|]; simpl; eauto.
  specialize (Hobs id (UnsupportedOperation (type c)) d).
  destruct (host (CallFn id _) d) as [d1 r]; simpl in *; subst r. eauto.
Qed.

(** The events of a descriptor of an unsupported kind are suspensions,
    observer calls and console lines, on any host. *)
Lemma unsupported_emits (c : ElementConfig) :
  is_supported (type c) = false →
  emits_only (λ ev, is_query ev = false ∧ is_primitive ev = false)
    (performActionByConfig c).
Proof.
  intros Hty. rewrite performActionByConfig_unfold.
  assert (Hloop : emits_only (λ ev, is_query ev = false ∧ is_primitive ev = false)
                    (retry_loop_of c)).
  { unfold retry_loop_of, withRetry. generalize 0 as i.
    rewrite thunk_of_unsupported by done.
    induction (Z.to_nat (retries_of c + 1)) as [|fuel IH]; intros i; simpl;
      case_bool_decide; try constructor; try done.
    apply emits_only_bind.
    - destruct (onError c) as [[id|verb sel]|]; simpl; repeat constructor.
      intros [e|[]]; constructor.
    - intros [|]; [constructor|apply IH]. }
  case_bool_decide; [|done]. by repeat constructor.
Qed.

Lemma body_unsupported_not_true (c : ElementConfig) (d : D) :
  is_supported (type c) = false → (run host (body_of c) d).2 ≠ inr true.
Proof.
  intros Hty. unfold body_of. rewrite thunk_of_unsupported by done.
  destruct (onError c) as [[id|verb sel]|]; simpl; try done.
  by destruct (host (CallFn id _) d) as [d1 [e|[]]].
Qed.

Lemma run_attempts_not_true (body : Prog bool) (n : nat) (d : D) :
  (∀ d, (run host body d).2 ≠ inr true) →
  (run_attempts host body n d).2 ≠ inr true.
Proof.
  intros Hbody; revert d; induction n as [|n IH]; intros d; simpl; [done|].
  specialize (Hbody d).
  destruct (run host body d) as [[d1 evs] [e|[|]]]; simpl in *; try done.
  specialize (IH d1). by destruct (run_attempts host body n d1) as [[d2 evs2] r].
Qed.

(** C1 (amended). For a descriptor whose kind is outside the enumeration the
    construction of the action fails with [UnsupportedOperation], so every
    attempt fails before any lookup: no lookup and no primitive ever
    happens.  The error does not abort the descriptor: the retry loop
    catches it, passes it to the observer and goes on, once for each of
    the [retries + 1] attempts; the result is never [true], and it is
    [false] when no observer raises. *)
Theorem unsupported_kind_is_retried (c : ElementConfig) (d : D) :
  is_supported (type c) = false →
  generateActionByType (type c) (value c) = inl (UnsupportedOperation (type c))
  ∧ thunk_of c = Throw (UnsupportedOperation (type c))
  ∧ count is_query (run host (performActionByConfig c) d).1.2 = 0%nat
  ∧ count is_primitive (run host (performActionByConfig c) d).1.2 = 0%nat
  ∧ (run host (performActionByConfig c) d).2 ≠ inr true
  ∧ (observers_return host →
     ∃ d', run host (performActionByConfig c) d =
       (d',
        wait_events c ++
          concat (replicate (Z.to_nat (retries_of c + 1))
                    (EvSusp Microtask
                       :: observer_events (onError c)
                            (UnsupportedOperation (type c)))),
        inr false)).
Proof.
  intros Hty.
  split; [by apply generateActionByType_unsupported|].
  split; [by apply thunk_of_unsupported|].
  pose proof (emits_only_run host _ _ d (unsupported_emits c Hty)) as Hevs.
  split; [|split; [|split]].
  - apply count_zero. eapply Forall_impl; [exact Hevs|]. by intros ev [? ?].
  - apply count_zero. eapply Forall_impl; [exact Hevs|]. by intros ev [? ?].
  - rewrite run_performActionByConfig, run_retry_loop_of.
    pose proof (run_attempts_not_true (body_of c)
                  (Z.to_nat (retries_of c + 1)) d
                  (λ d0, body_unsupported_not_true c d0 Hty)) as Hnot.
    by destruct (run_attempts host (body_of c) _ d) as [[d1 evs] r].
  - intros Hobs. rewrite run_performActionByConfig, run_retry_loop_of.
    destruct (run_attempts_const (body_of c) _
                (Z.to_nat (retries_of c + 1)) d
                (λ d0, run_body_unsupported c d0 Hty Hobs)) as [d' ->].
    eauto.
Qed.

Lemma run_body_supported (c : ElementConfig) (action : Action) (d : D) :
  generateActionByType (type c) (value c) = inr action →
  run host (body_of c) d =
    let '(d1, evs, r) := run host (findAndPerformAction (selector c) action) d in
    (d1, evs ++ [EvSusp Microtask], r).
Proof.
  intros Hgen. unfold body_of. rewrite run_withRetry_body.
  rewrite (thunk_of_supported c action Hgen), run_findAndPerformAction.
  destruct (host (QuerySelector (selector c)) d) as [d1 [e|[el|]]]; try done.
  by destruct (run host (action el) d1) as [[d2 evs] [e|[]]].
Qed.

(** An action made by [generateActionByType] starts with its primitive and
    involves neither lookups nor observers nor [console.error]. *)
Lemma run_generated (ty : string) (v : option string) (action : Action)
    (el : Elem) (d : D) :
  generateActionByType ty v = inr action →
  count is_primitive (run host (action el) d).1.2 = 1%nat
  ∧ count is_query (run host (action el) d).1.2 = 0%nat
  ∧ count is_onError (run host (action el) d).1.2 = 0%nat
  ∧ count is_console_error (run host (action el) d).1.2 = 0%nat.
Proof.
  unfold generateActionByType. intros Hgen.
  repeat case_match; simplify_eq; simpl;
    repeat match goal with
           | |- context [host ?c d] => destruct (host c d) as [? [?|?]]
           end; done.
Qed.

(** C2 (amended). When the target resolves on every attempt and the
    primitive raises on every attempt, a descriptor with [retries = N] has
    its primitive invoked exactly [N + 1] times and its result is [false];
    each fault is caught by the single-action executor and written to
    [console.error], [N + 1] lines in all, and the observer is never
    invoked. *)
Theorem faulting_primitive_is_retried
    (c : ElementConfig) (action : Action) (N : nat) (d : D) :
  generateActionByType (type c) (value c) = inr action →
  retries c = Some (Z.of_nat N) →
  (∀ d, ∃ el, (host (QuerySelector (selector c)) d).2 = inr (Some el)) →
  (∀ el d, ∃ e, (run host (action el) d).2 = inl e) →
  (run host (performActionByConfig c) d).2 = inr false
  ∧ count is_primitive (run host (performActionByConfig c) d).1.2 = S N
  ∧ count is_onError (run host (performActionByConfig c) d).1.2 = 0%nat
  ∧ count is_console_error (run host (performActionByConfig c) d).1.2 = S N.
Proof.
  intros Hgen HN Hres Hfault.
  assert (Hbody : ∀ d,
    (run host (body_of c) d).2 = inr false
    ∧ count is_primitive (run host (body_of c) d).1.2 = 1%nat
    ∧ count is_onError (run host (body_of c) d).1.2 = 0%nat
    ∧ count is_console_error (run host (body_of c) d).1.2 = 1%nat).
  { intros d0. rewrite (run_body_supported c action d0 Hgen).
    rewrite run_findAndPerformAction.
    destruct (Hres d0) as [el Hel].
    destruct (host (QuerySelector (selector c)) d0) as [d1 r];
      simpl in Hel; subst r.
    destruct (Hfault el d1) as [e He].
    destruct (run_generated _ _ action el d1 Hgen) as (Hp & _ & Ho & Hc).
    destruct (run host (action el) d1) as [[d2 evs] r];
      simpl in *; subst r; simpl.
    autorewrite with count_db. rewrite Hp, Ho, Hc. simpl. repeat split; lia. }
  assert (Hn : Z.to_nat (retries_of c + 1) = S N).
  { unfold retries_of. rewrite HN. simpl. lia. }
  assert (Hw : ∀ f, (f = is_primitive ∨ f = is_onError ∨ f = is_console_error) →
                     count f (wait_events c) = 0%nat).
  { intros f Hf. unfold wait_events.
    case_bool_decide; destruct Hf as [->|[->| ->]]; done. }
  rewrite run_performActionByConfig, run_retry_loop_of, Hn.
  destruct (run_attempts_count (body_of c) is_primitive 1 (S N) d) as [Hr Hp];
    [intros d0; destruct (Hbody d0); tauto|].
  destruct (run_attempts_count (body_of c) is_onError 0 (S N) d) as [_ Ho];
    [intros d0; destruct (Hbody d0); tauto|].
  destruct (run_attempts_count (body_of c) is_console_error 1 (S N) d) as [_ Hc];
    [intros d0; destruct (Hbody d0); tauto|].
  destruct (run_attempts host (body_of c) (S N) d) as [[d1 evs] res].
  cbn [fst snd] in *.
  rewrite !count_app, !Hw, Hp, Ho, Hc by tauto. repeat split; [done|lia..].
Qed.

(** One attempt when the lookup finds nothing. *)
Lemma run_findAndPerformAction_missing (sel : string) (action : Action) (d : D) :
  (∀ d, (host (QuerySelector sel) d).2 = inr None) →
  ∃ d1, run host (findAndPerformAction sel action) d
        = (d1, [EvHost (QuerySelector sel)], inr false).
Proof.
  intros Hnone. rewrite run_findAndPerformAction. specialize (Hnone d).
  destruct (host (QuerySelector sel) d) as [d1 r]; simpl in *; subst r. eauto.
Qed.

(** C4. When the lookup of a locator finds nothing on every attempt, every
    run of the single-action executor returns [false] without invoking the
    action; the retry wrapper makes its [retries + 1] attempts, each a
    single lookup, never invokes the observer and returns [false].  So does
    [performActionByConfig] for a descriptor of that locator and any of
    the four kinds. *)
Theorem unresolved_locator_is_false (sel : string) :
  (∀ d, (host (QuerySelector sel) d).2 = inr None) →
  (∀ (action : Action) (d : D),
     ∃ d1, run host (findAndPerformAction sel action) d
           = (d1, [EvHost (QuerySelector sel)], inr false))
  ∧ (∀ (action : Action) (n : Z) (onError : option Callback) (d : D),
       ∃ d1, run host (withRetry (findAndPerformAction sel action) n onError) d
             = (d1,
                concat (replicate (Z.to_nat (n + 1))
                          [EvHost (QuerySelector sel); EvSusp Microtask]),
                inr false))
  ∧ (∀ (c : ElementConfig) (d : D),
       selector c = sel → is_supported (type c) = true →
       (run host (performActionByConfig c) d).2 = inr false
       ∧ count is_onError (run host (performActionByConfig c) d).1.2 = 0%nat
       ∧ count is_primitive (run host (performActionByConfig c) d).1.2 = 0%nat
       ∧ count is_query (run host (performActionByConfig c) d).1.2
         = Z.to_nat (retries_of c + 1)).
Proof.
  intros Hnone.
  assert (Hloop : ∀ action n onError d,
    ∃ d1, run host (withRetry (findAndPerformAction sel action) n onError) d
          = (d1,
             concat (replicate (Z.to_nat (n + 1))
                       [EvHost (QuerySelector sel); EvSusp Microtask]),
             inr false)).
  { intros action n onError d. rewrite run_withRetry.
    apply run_attempts_const. intros d0. rewrite run_withRetry_body.
    destruct (run_findAndPerformAction_missing sel action d0 Hnone) as [d1 ->].
    eauto. }
  split; [|split].
  - intros action d. by apply run_findAndPerformAction_missing.
  - exact Hloop.
  - intros c d Hsel Hty. rewrite run_performActionByConfig.
    destruct (generateActionByType (type c) (value c)) as [e|action] eqn:Hgen.
    { destruct (generateActionByType_supported_ex (type c) (value c) Hty)
        as [action Haction]. congruence. }
    unfold retry_loop_of.
    rewrite (thunk_of_supported c action Hgen), Hsel.
    destruct (Hloop action (retries_of c) (onError c) d) as [d1 ->].
    cbn [fst snd].
    assert (Hw : ∀ f, (f = is_primitive ∨ f = is_onError ∨ f = is_query) →
                       count f (wait_events c) = 0%nat).
    { intros f Hf. unfold wait_events.
      case_bool_decide; destruct Hf as [->|[->| ->]]; done. }
    rewrite !count_app, !Hw, !count_concat_replicate by tauto.
    change (count is_onError [EvHost (QuerySelector sel); EvSusp Microtask])
      with 0%nat.
    change (count is_primitive [EvHost (QuerySelector sel); EvSusp Microtask])
      with 0%nat.
    change (count is_query [EvHost (QuerySelector sel); EvSusp Microtask])
      with 1%nat.
    repeat split; lia.
Qed.

Lemma state_after_front (body : Prog bool) (j : nat) (d : D) :
  state_after host body (S j) d
  = state_after host body j (run host body d).1.1.
Proof. induction j as [|j IH]; simpl in *; [done|]. by rewrite <- IH. Qed.

Lemma events_of_front (body : Prog bool) (j : nat) (d : D) :
  events_of host body (S j) d
  = (run host body d).1.2 ++ events_of host body j (run host body d).1.1.
Proof.
  induction j as [|j IH]; [simpl; by rewrite app_nil_r|].
  change (events_of host body (S (S j)) d)
    with (events_of host body (S j) d
            ++ (run host body (state_after host body (S j) d)).1.2).
  rewrite IH, state_after_front. simpl. by rewrite app_assoc.
Qed.

(** A loop whose body first returns [true] on attempt [k] makes exactly
    [k] attempts. *)
Lemma run_attempts_first_success (body : Prog bool) (k n : nat) (d : D) :
  first_success_on host body k d → (k ≤ n)%nat →
  run_attempts host body n d
  = (state_after host body k d, events_of host body k d, inr true).
Proof.
  intros (Hk & Hfail & Hok). destruct k as [|k]; [lia|]. clear Hk.
  replace (S k - 1)%nat with k in * by lia.
  revert n d Hfail Hok; induction k as [|k IH]; intros n d Hfail Hok Hn;
    (destruct n as [|n]; [lia|]); unfold attempt_outcome in *.
  - simpl in *.
    destruct (run host body d) as [[d1 evs] res]; simpl in *. by subst res.
  - rewrite events_of_front, state_after_front.
    pose proof (Hfail 0%nat ltac:(lia)) as H0. simpl in H0.
    cbn [run_attempts].
    destruct (run host body d) as [[d1 evs] res] eqn:Hrun;
      simpl in H0; subst res. cbn [fst snd].
    rewrite (IH n d1); [done| | |lia].
    + intros j Hj. specialize (Hfail (S j) ltac:(lia)).
      by rewrite state_after_front, Hrun in Hfail.
    + by rewrite state_after_front, Hrun in Hok.
Qed.

(** One attempt on a descriptor of a supported kind: one lookup, and one
    primitive when the lookup finds the element. *)
Lemma count_body_supported (c : ElementConfig) (action : Action) (d : D) :
  generateActionByType (type c) (value c) = inr action →
  count is_query (run host (body_of c) d).1.2 = 1%nat
  ∧ count is_primitive (run host (body_of c) d).1.2
    = match (host (QuerySelector (selector c)) d).2 with
      | inr (Some _) => 1%nat
      | _ => 0%nat
      end.
Proof.
  intros Hgen. rewrite (run_body_supported c action d Hgen).
  rewrite run_findAndPerformAction.
  destruct (host (QuerySelector (selector c)) d) as [d1 [e|[el|]]]; try done.
  destruct (run_generated _ _ action el d1 Hgen) as (Hp & Hq & _).
  destruct (run host (action el) d1) as [[d2 evs] [e|[]]]; simpl in *;
    autorewrite with count_db; rewrite Hp, Hq; done.
Qed.

Lemma count_events_of_supported (c : ElementConfig) (action : Action)
    (k : nat) (d : D) :
  generateActionByType (type c) (value c) = inr action →
  count is_query (events_of host (body_of c) k d) = k
  ∧ count is_primitive (events_of host (body_of c) k d)
    = length (List.filter
                (λ j, resolved_on host (selector c) (body_of c) j d)
                (seq 0 k)).
Proof.
  intros Hgen. induction k as [|k [IHq IHp]]; [done|].
  destruct (count_body_supported c action
              (state_after host (body_of c) k d) Hgen) as [Hq Hp].
  rewrite seq_S, List.filter_app, length_app. simpl.
  rewrite !count_app, IHq, IHp, Hq, Hp. split; [lia|].
  f_equal. unfold resolved_on.
  by destruct (host (QuerySelector (selector c))
                 (state_after host (body_of c) k d)).2 as [e|[el|]].
Qed.

(** C3 (amended). When the single-action execution of a descriptor with
    [retries = N] first succeeds on attempt [k ≤ N + 1], the run consists
    of the delay and of exactly [k] attempts, nothing after the success,
    and the result is [true].  The [k] attempts make [k] lookups; the
    primitive is invoked once in each attempt whose lookup finds the
    element, hence [k] times when the element resolves on every attempt
    and fewer otherwise. *)
Theorem success_stops_retrying (c : ElementConfig) (N k : nat) (d : D) :
  retries c = Some (Z.of_nat N) →
  (k ≤ S N)%nat →
  first_success_on host (body_of c) k d →
  run host (performActionByConfig c) d
  = (state_after host (body_of c) k d,
     wait_events c ++ events_of host (body_of c) k d,
     inr true)
  ∧ count is_query (events_of host (body_of c) k d) = k
  ∧ count is_primitive (events_of host (body_of c) k d)
    = length (List.filter
                (λ j, resolved_on host (selector c) (body_of c) j d)
                (seq 0 k))
  ∧ ((∀ d, ∃ el, (host (QuerySelector (selector c)) d).2 = inr (Some el)) →
     count is_primitive (events_of host (body_of c) k d) = k).
Proof.
  intros HN Hk Hfirst.
  assert (Hgen : ∃ action, generateActionByType (type c) (value c) = inr action).
  { destruct (is_supported (type c)) eqn:Hty;
      [by apply generateActionByType_supported_ex|].
    destruct Hfirst as (_ & _ & Hok).
    by apply body_unsupported_not_true in Hok. }
  destruct Hgen as [action Hgen].
  destruct (count_events_of_supported c action k d Hgen) as [Hq Hp].
  split; [|split; [done|split; [done|]]].
  - rewrite run_performActionByConfig, run_retry_loop_of.
    rewrite (run_attempts_first_success _ k); [done|done|].
    unfold retries_of. rewrite HN. simpl. lia.
  - intros Hres. rewrite Hp.
    rewrite List.forallb_filter_id; [by rewrite length_seq|].
    apply forallb_forall. intros j _. unfold resolved_on.
    destruct (Hres (state_after host (body_of c) j d)) as [el ->]. done.
Qed.

End Attempts.

(** ** The batch runner *)

Section NeverRejects.
Context {D : Type} (host : HostOf D).

Lemma never_rejects_bind {A B : Type} (p : Prog A) (f : A → Prog B) :
  never_rejects host p → (∀ a, never_rejects host (f a)) →
  never_rejects host (bind p f).
Proof. induction 1; intros Hf; simpl; try constructor; auto. Qed.

(** A [try] whose handler cannot reject cannot reject. *)
Lemma never_rejects_try_catch {A : Type} (p : Prog A) (h : JsError → Prog A) :
  (∀ e, never_rejects host (h e)) → never_rejects host (try_catch p h).
Proof.
  intros Hh. induction p as [a|e|c k IH|l k IH|s k IH]; simpl;
    try constructor; auto.
Qed.




Lemma step_status_ok {A : Type} (p : Prog A) (d : D) :
  never_rejects host p → status_ok host (step host p d).2.
Proof.
  intros Hp; revert d; induction Hp as [a|c k _ IH|l k _ IH|s k Hk _];
    intros d; simpl; try done.
  - specialize (IH d). destruct (host c d) as [d1 r]; simpl in IH.
    specialize (IH d1). by destruct (step host (k r) d1) as [[d2 evs] st].
  - specialize (IH d). by destruct (step host k d) as [[d2 evs] st].
Qed.

Lemma run_never_rejects {A : Type} (p : Prog A) (d : D) :
  never_rejects host p → ∃ a, (run host p d).2 = inr a.
Proof.
  intros Hp; revert d; induction Hp as [a|c k _ IH|l k _ IH|s k _ IH];
    intros d; simpl; eauto.
  - specialize (IH d). destruct (host c d) as [d1 r]; simpl in IH.
    destruct (IH d1) as [a Ha].
    destruct (run host (k r) d1) as [[d2 evs] res]; eauto.
  - destruct (IH d) as [a Ha].
    destruct (run host k d) as [[d2 evs] res]; eauto.
  - destruct (IH d) as [a Ha].
    destruct (run host k d) as [[d2 evs] res]; eauto.
Qed.

End NeverRejects.

Section Pool.
Context {D : Type} (host : HostOf D).

Lemma start_all_reaches (ps : list (Prog bool)) (d : D) :
  Forall2 (reaches host) ps (start_all host ps d).2.
Proof.
  revert d; induction ps as [|p ps IH]; intros d; simpl; [constructor|].
  pose proof (reaches_start host p d) as Hp.
  destruct (step host p d) as [[d1 evs] st]. specialize (IH d1).
  destruct (start_all host ps d1) as [d2 sts]. by constructor.
Qed.

Lemma start_all_ok (ps : list (Prog bool)) (d : D) :
  Forall (never_rejects host) ps →
  Forall (status_ok host) (start_all host ps d).2.
Proof.
  intros Hps; revert d; induction Hps as [|p ps Hp _ IH]; intros d; simpl;
    [constructor|].
  pose proof (step_status_ok host p d Hp) as Hst.
  destruct (step host p d) as [[d1 evs] st]. specialize (IH d1).
  destruct (start_all host ps d1) as [d2 sts]. by constructor.
Qed.

Lemma resume_reaches (ps : list (Prog bool)) (i : nat)
    (pool : list (Status bool)) (d : D) :
  Forall2 (reaches host) ps pool →
  Forall2 (reaches host) ps (resume host i pool d).2.
Proof.
  intros Hpool. unfold resume.
  destruct (pool !! i) as [[a|e|k]|] eqn:Hi; try done.
  destruct (Forall2_lookup_r _ _ _ _ _ Hpool Hi) as (p & Hp & Hreach).
  pose proof (reaches_resume host p k d Hreach) as Hnext.
  destruct (step host k d) as [[d1 evs] st]; simpl in *.
  rewrite <- (list_insert_id ps i p Hp). by apply Forall2_insert.
Qed.

Lemma resume_ok (i : nat) (pool : list (Status bool)) (d : D) :
  Forall (status_ok host) pool →
  Forall (status_ok host) (resume host i pool d).2.
Proof.
  intros Hpool. unfold resume.
  destruct (pool !! i) as [[a|e|k]|] eqn:Hi; try done.
  pose proof (Forall_lookup_1 _ _ _ _ Hpool Hi) as Hk.
  pose proof (step_status_ok host k d Hk) as Hst.
  destruct (step host k d) as [[d1 evs] st]; simpl in *.
  by apply Forall_insert.
Qed.

Lemma first_rejection_ok (pool : list (Status bool)) :
  Forall (status_ok host) pool → first_rejection pool = None.
Proof.
  unfold first_rejection.
  induction 1 as [|[a|e|k] pool Hst _ IH]; simpl; done.
Qed.

(** Once every task is fulfilled, resuming changes nothing. *)
Lemma resume_all_values (i : nat) (pool : list (Status bool))
    (vals : list bool) (d : D) :
  all_values pool = Some vals → resume host i pool d = (d, pool).
Proof.
  intros Hvals. unfold resume.
  destruct (pool !! i) as [[a|e|k]|] eqn:Hi; try done.
  apply mapM_Some_1 in Hvals.
  by destruct (Forall2_lookup_l _ _ _ _ _ Hvals Hi) as (b & _ & ?).
Qed.

Lemma event_loop_inv (ps : list (Prog bool)) (sched : list nat)
    (b : Batch) (d : D) :
  batch_inv host ps b → batch_inv host ps (event_loop host sched b d).2.
Proof.
  revert b d; induction sched as [|i sched IH]; intros b d Hb; simpl; [done|].
  destruct Hb as (Hreach & Hok & Hjoin).
  pose proof (resume_reaches ps i (tasks b) d Hreach) as Hreach'.
  pose proof (resume_ok i (tasks b) d Hok) as Hok'.
  destruct (resume host i (tasks b) d) as [d1 pool] eqn:Hres; simpl in *.
  apply IH. repeat split; simpl; [done..|].
  destruct (all_values (tasks b)) as [vals|] eqn:Hvals; simpl in Hjoin.
  - rewrite (resume_all_values i _ vals d Hvals) in Hres.
    simplify_eq. by rewrite Hjoin, Hvals.
  - rewrite Hjoin. simpl. by rewrite first_rejection_ok.
Qed.

Lemma run_batch_inv (ps : list (Prog bool)) (sched : list nat) (d : D) :
  Forall (never_rejects host) ps →
  batch_inv host ps (run_batch host ps sched d).2.
Proof.
  intros Hps. unfold run_batch.
  pose proof (start_all_reaches ps d) as Hreach.
  pose proof (start_all_ok ps d Hps) as Hok.
  destruct (start_all host ps d) as [d1 pool]; simpl in *.
  apply event_loop_inv. repeat split; simpl; [done..|].
  by rewrite first_rejection_ok.
Qed.


(** *** Every batch can be run to completion *)








(** *** Hosts whose answers are fixed *)


Lemma outcome_of_step {A : Type} (p : Prog A) (d : D) :
  outcome_of host (step host p d).2 (step host p d).1.1 = (run host p d).2.
Proof.
  rewrite run_step. destruct (step host p d) as [[d1 evs] [a|e|k]]; try done.
  simpl. by destruct (run host k d1) as [[d2 evs2] r].
Qed.



End Pool.

Section Visits.
Context {D : Type} (host : HostOf D).






End Visits.


(** ** The statements at concrete inputs *)

Lemma quiet_host_observers : observers_return quiet_host.
Proof. by intros id err []. Qed.




(** On that page the batch ran the click on [#b] only in states where [#b]
    was gone, and the replay of each descriptor over the states it was run in
    gives the values of the batch. *)
Lemma batch_replay_on_removing_host :
  batch_visits removing_host
    (performActionByConfig <$> [config "#a" "click"; config "#b" "click"])
    [0; 1; 0]%nat true
  = [[true; false; false]; [false; false]]
  ∧ zip_with (replay removing_host)
      (performActionByConfig <$> [config "#a" "click"; config "#b" "click"])
      [[true; false; false]; [false; false]]
    = [Fulfilled true; Fulfilled false].
Proof. split; reflexivity. Qed.

Lemma unsupported_kind_is_retried_witness :
  is_supported (type hover_config) = false
  ∧ run quiet_host (performActionByConfig hover_config) tt
    = (tt,
       wait_events hover_config ++
         concat (replicate 3
                   [EvSusp Microtask;
                    EvHost (CallFn 7 (UnsupportedOperation "hover"))]),
       inr false).
Proof.
  split; [reflexivity|].
  destruct (unsupported_kind_is_retried quiet_host hover_config tt eq_refl)
    as (_ & _ & _ & _ & _ & Hrun).
  destruct (Hrun quiet_host_observers) as [[] Hd]. exact Hd.
Defined.

(** C1, as stated, fails: the descriptor of kind [hover] with two retries is
    not aborted by an error; its three attempts each hand the error to the
    observer and the result is [false]. *)
Lemma unsupported_kind_not_aborted :
  is_supported (type hover_config) = false
  ∧ run quiet_host (performActionByConfig hover_config) tt
    = (tt,
       [EvSusp Microtask; EvHost (CallFn 7 (UnsupportedOperation "hover"));
        EvSusp Microtask; EvHost (CallFn 7 (UnsupportedOperation "hover"));
        EvSusp Microtask; EvHost (CallFn 7 (UnsupportedOperation "hover"))],
       inr false).
Proof. split; reflexivity. Qed.

Lemma faulting_primitive_is_retried_witness :
  (run faulty_host (performActionByConfig (click_a 2)) tt).2 = inr false
  ∧ count is_primitive (run faulty_host (performActionByConfig (click_a 2)) tt).1.2
    = 3%nat
  ∧ count is_onError (run faulty_host (performActionByConfig (click_a 2)) tt).1.2
    = 0%nat
  ∧ count is_console_error
      (run faulty_host (performActionByConfig (click_a 2)) tt).1.2 = 3%nat.
Proof.
  apply (faulting_primitive_is_retried faulty_host (click_a 2)
           (λ el, call (Click el)) 2 tt).
  - reflexivity.
  - reflexivity.
  - intros []. by exists 1%nat.
  - intros el []. by exists detached.
Defined.

(** C2, as stated, fails: with two retries and a primitive that always
    raises, the primitive runs three times and the result is [false], but the
    observer is not invoked three times: it is never invoked. *)
Lemma faults_do_not_reach_observer :
  (∀ d, (faulty_host (QuerySelector (selector (click_a 2))) d).2 = inr (Some 1%nat))
  ∧ (∀ el d, (run faulty_host (call (Click el)) d).2 = inl detached)
  ∧ (run faulty_host (performActionByConfig (click_a 2)) tt).2 = inr false
  ∧ count is_primitive (run faulty_host (performActionByConfig (click_a 2)) tt).1.2
    = 3%nat
  ∧ count is_onError (run faulty_host (performActionByConfig (click_a 2)) tt).1.2
    ≠ 3%nat.
Proof.
  split; [by intros []|]. split; [by intros el []|].
  split; [reflexivity|]. split; [reflexivity|]. discriminate.
Qed.

Lemma late_host_first_success :
  first_success_on late_host (body_of (click_a 1)) 2 0%nat.
Proof.
  split; [lia|]. split; [|reflexivity].
  intros j Hj. replace j with 0%nat by lia. reflexivity.
Qed.

Lemma success_stops_retrying_witness :
  first_success_on late_host (body_of (click_a 1)) 2 0%nat
  ∧ run late_host (performActionByConfig (click_a 1)) 0%nat
    = (state_after late_host (body_of (click_a 1)) 2 0%nat,
       wait_events (click_a 1)
         ++ events_of late_host (body_of (click_a 1)) 2 0%nat,
       inr true)
  ∧ count is_query (events_of late_host (body_of (click_a 1)) 2 0%nat) = 2%nat.
Proof.
  split; [exact late_host_first_success|].
  destruct (success_stops_retrying late_host (click_a 1) 1 2 0%nat eq_refl
              (le_n 2) late_host_first_success) as (Hrun & Hq & _).
  split; [exact Hrun|exact Hq].
Defined.

(** C3, as stated, fails on a page where [#a] is attached after the first
    lookup: the execution first succeeds on attempt 2 of 2, the result is
    [true], and the primitive was invoked once, not twice. *)
Lemma primitive_invoked_less_than_k :
  retries (click_a 1) = Some 1
  ∧ first_success_on late_host (body_of (click_a 1)) 2 0%nat
  ∧ (run late_host (performActionByConfig (click_a 1)) 0%nat).2 = inr true
  ∧ count is_primitive
      (run late_host (performActionByConfig (click_a 1)) 0%nat).1.2 = 1%nat.
Proof.
  split; [reflexivity|]. split; [exact late_host_first_success|].
  split; reflexivity.
Qed.

Lemma quiet_host_missing :
  ∀ d, (quiet_host (QuerySelector "#missing") d).2 = inr None.
Proof. by intros []. Qed.

Lemma unresolved_locator_is_false_witness :
  (∀ d, (quiet_host (QuerySelector "#missing") d).2 = inr None)
  ∧ (run quiet_host (performActionByConfig (focus_missing 2)) tt).2 = inr false
  ∧ count is_onError
      (run quiet_host (performActionByConfig (focus_missing 2)) tt).1.2 = 0%nat.
Proof.
  split; [exact quiet_host_missing|].
  destruct (unresolved_locator_is_false quiet_host "#missing" quiet_host_missing)
    as (_ & _ & Hcfg).
  destruct (Hcfg (focus_missing 2) tt eq_refl eq_refl) as (Hres & Hobs & _).
  split; [exact Hres|exact Hobs].
Defined.

(** ** Further properties of the engine *)

Section EngineFacts.
Context {D : Type} (host : HostOf D).

Lemma findAndPerformActionByType_supported (sel ty : string)
    (v : option string) (action : Action) :
  generateActionByType ty v = inr action →
  findAndPerformActionByType sel ty v = findAndPerformAction sel action.
Proof.
  intros Hgen. unfold findAndPerformActionByType. unfold_monad. simpl.
  by rewrite generateActionByType_default, Hgen.
Qed.

(** X1. [findAndPerformActionByType] rejects exactly for the kinds outside
    the enumeration, with [UnsupportedOperation] and before any call to the
    page; for the four kinds it always returns a boolean. *)
Theorem findAndPerformActionByType_outcome
    (sel ty : string) (v : option string) (d : D) :
  if is_supported ty
  then ∃ b : bool, (run host (findAndPerformActionByType sel ty v) d).2 = inr b
  else run host (findAndPerformActionByType sel ty v) d
       = (d, [], inl (UnsupportedOperation ty)).
Proof.
  destruct (is_supported ty) eqn:Hty.
  - destruct (generateActionByType_supported_ex ty v Hty) as [action Hgen].
    rewrite (findAndPerformActionByType_supported sel ty v action Hgen).
    rewrite run_findAndPerformAction.
    destruct (host (QuerySelector sel) d) as [d1 [e|[el|]]]; eauto.
    destruct (run host (action el) d1) as [[d2 evs] [e|[]]]; eauto.
  - unfold findAndPerformActionByType. unfold_monad.
    by rewrite generateActionByType_unsupported.
Qed.

(** X2. When the lookup finds an element, a run of
    [findAndPerformActionByType] for one of the four kinds makes exactly two
    calls to the page: the lookup and the operation of that kind on the
    element found ([input] writes the given value, the empty string when none
    is given). *)
Theorem kind_invokes_its_primitive
    (sel ty : string) (v : option string) (d d1 : D) (el : Elem) :
  is_supported ty = true →
  host (QuerySelector sel) d = (d1, inr (Some el)) →
  ∃ c, primitive_of ty v el = Some c
       ∧ host_calls (run host (findAndPerformActionByType sel ty v) d).1.2
         = [QuerySelector sel; c].
Proof.
  unfold is_supported. intros Hty Hq. apply bool_decide_eq_true in Hty.
  repeat (apply elem_of_cons in Hty as [->|Hty]);
    [..|by apply elem_of_nil in Hty];
    (eexists; split; [reflexivity|]);
    erewrite findAndPerformActionByType_supported by reflexivity;
    rewrite run_findAndPerformAction, Hq; simpl.
  - by destruct (host (Click el) d1) as [d2 [e|[]]].
  - by destruct (host (SetValue el (default "" v)) d1) as [d2 [e|[]]].
  - by destruct (host (Focus el) d1) as [d2 [e|[]]].
  - by destruct (host (TextContent el) d1) as [d2 [e|text]].
Qed.

(** X3. A [readText] on an element that is found and whose text can be read
    writes that text with [console.log] and returns [true]; it makes no other
    call to the page. *)
Theorem readText_logs_the_text
    (sel text : string) (v : option string) (d d1 d2 : D) (el : Elem) :
  host (QuerySelector sel) d = (d1, inr (Some el)) →
  host (TextContent el) d1 = (d2, inr text) →
  run host (findAndPerformActionByType sel ElementActionType.READ_TEXT v) d
  = (d2,
     [EvHost (QuerySelector sel); EvHost (TextContent el);
      EvConsole (ConsoleLog text); EvSusp Microtask],
     inr true).
Proof.
  intros Hq Ht.
  erewrite findAndPerformActionByType_supported by reflexivity.
  rewrite run_findAndPerformAction, Hq. simpl. by rewrite Ht.
Qed.

Lemma run_attempts_ext (body1 body2 : Prog bool) (n : nat) (d : D) :
  (∀ d, run host body1 d = run host body2 d) →
  run_attempts host body1 n d = run_attempts host body2 n d.
Proof.
  intros Hext; revert d; induction n as [|n IH]; intros d; simpl; [done|].
  rewrite Hext. destruct (run host body2 d) as [[d1 evs] [e|[|]]]; try done.
  by rewrite IH.
Qed.

(** For a supported kind the loop body does not depend on the observer. *)
Lemma run_performActionByConfig_observer (c : ElementConfig) (o : option Callback)
    (d : D) :
  is_supported (type c) = true →
  run host (performActionByConfig (set_onError o c)) d
  = run host (performActionByConfig c) d.
Proof.
  intros Hty.
  destruct (generateActionByType_supported_ex (type c) (value c) Hty)
    as [action Hgen].
  rewrite !run_performActionByConfig, !run_retry_loop_of.
  change (wait_events (set_onError o c)) with (wait_events c).
  change (retries_of (set_onError o c)) with (retries_of c).
  rewrite (run_attempts_ext (body_of (set_onError o c)) (body_of c)); [done|].
  intros d0. rewrite (run_body_supported host c action d0 Hgen).
  by rewrite (run_body_supported host (set_onError o c) action d0 Hgen).
Qed.

(** X4. For a descriptor of one of the four kinds the observer plays no
    part: on every host the run is the same with any other observer or with
    none, and it contains no call of an observer. *)
Theorem observer_is_never_called (c : ElementConfig) (o : option Callback) (d : D) :
  is_supported (type c) = true →
  run host (performActionByConfig (set_onError o c)) d
  = run host (performActionByConfig c) d
  ∧ count is_onError (run host (performActionByConfig c) d).1.2 = 0%nat.
Proof.
  intros Hty. split; [by apply run_performActionByConfig_observer|].
  rewrite <- (run_performActionByConfig_observer c None d Hty).
  apply count_zero. eapply emits_only_run.
  rewrite performActionByConfig_unfold.
  assert (Hloop : emits_only (λ ev, is_onError ev = false)
                    (retry_loop_of (set_onError None c))).
  { unfold retry_loop_of, withRetry. generalize 0 as i.
    assert (Hthunk : emits_only (λ ev, is_onError ev = false)
                       (thunk_of (set_onError None c))).
    { destruct (generateActionByType_supported_ex (type c) (value c) Hty)
        as [action Hgen].
      rewrite (thunk_of_supported (set_onError None c) action Hgen).
      apply emits_only_try_catch; [|intros e; by repeat constructor].
      apply emits_only_bind; [emits_call|].
      intros [el|]; [|constructor].
      apply emits_only_bind; [|intros; by repeat constructor].
      unfold generateActionByType in Hgen.
      repeat case_match; simplify_eq; try emits_call.
      constructor; [done|]. intros [e|text]; by repeat constructor. }
    induction (Z.to_nat _) as [|fuel IH]; intros i; simpl;
      case_bool_decide; try constructor.
    apply emits_only_bind.
    - apply emits_only_try_catch.
      + apply emits_only_bind; [by apply emits_only_await|]. intros; constructor.
      + intros e. repeat constructor.
    - intros [|]; [constructor|apply IH]. }
  case_bool_decide; [|done]. by repeat constructor.
Qed.

End EngineFacts.

Lemma observer_is_never_called_witness :
  is_supported (type (click_a 2)) = true
  ∧ run faulty_host (performActionByConfig (set_onError None (click_a 2))) tt
    = run faulty_host (performActionByConfig (click_a 2)) tt.
Proof.
  split; [reflexivity|].
  apply (observer_is_never_called faulty_host (click_a 2) None tt eq_refl).
Defined.

Lemma kind_invokes_its_primitive_witness :
  ∃ c, primitive_of "input" None 2%nat = Some c
       ∧ host_calls (run quiet_host (findAndPerformActionByType "#b" "input" None) tt).1.2
         = [QuerySelector "#b"; c].
Proof.
  apply (kind_invokes_its_primitive quiet_host "#b" "input" None tt tt 2%nat);
    reflexivity.
Defined.

Lemma readText_logs_the_text_witness :
  run quiet_host (findAndPerformActionByType "#a" "readText" None) tt
  = (tt,
     [EvHost (QuerySelector "#a"); EvHost (TextContent 1%nat);
      EvConsole (ConsoleLog "hello"); EvSusp Microtask],
     inr true).
Proof.
  apply (readText_logs_the_text quiet_host "#a" "hello" None tt tt tt 1%nat);
    reflexivity.
Defined.

Section EngineBounds.
Context {D : Type} (host : HostOf D).

Lemma run_attempts_count_le (body : Prog bool) (f g : Event → bool)
    (n : nat) (d : D) :
  (∀ d, (count f (run host body d).1.2 ≤ count g (run host body d).1.2)%nat
        ∧ (count g (run host body d).1.2 ≤ 1)%nat) →
  (count f (run_attempts host body n d).1.2
   ≤ count g (run_attempts host body n d).1.2)%nat
  ∧ (count g (run_attempts host body n d).1.2 ≤ n)%nat.
Proof.
  intros Hbody; revert d; induction n as [|n IH]; intros d; simpl; [done|].
  destruct (Hbody d) as [Hfg Hg].
  destruct (run host body d) as [[d1 evs] [e|[|]]]; simpl in *; try lia.
  destruct (IH d1) as [Hfg' Hg'].
  destruct (run_attempts host body n d1) as [[d2 evs2] r]; simpl in *.
  rewrite !count_app. lia.
Qed.

Lemma count_wait_events (f : Event → bool) (c : ElementConfig) :
  (∀ s, f (EvSusp s) = false) → count f (wait_events c) = 0%nat.
Proof.
  intros Hf. unfold wait_events. case_bool_decide; [|done].
  autorewrite with count_db. by rewrite !Hf.
Qed.

(** X5. On every host a descriptor makes at most [retries + 1] lookups, and
    never more element operations than lookups: an operation only follows a
    lookup of its own attempt. *)
Theorem lookups_are_bounded (c : ElementConfig) (d : D) :
  (count is_query (run host (performActionByConfig c) d).1.2
   ≤ Z.to_nat (retries_of c + 1))%nat
  ∧ (count is_primitive (run host (performActionByConfig c) d).1.2
     ≤ count is_query (run host (performActionByConfig c) d).1.2)%nat.
Proof.
  destruct (is_supported (type c)) eqn:Hty.
  - destruct (generateActionByType_supported_ex (type c) (value c) Hty)
      as [action Hgen].
    rewrite run_performActionByConfig, run_retry_loop_of.
    destruct (run_attempts_count_le (body_of c) is_primitive is_query
                (Z.to_nat (retries_of c + 1)) d) as [Hpq Hq].
    { intros d0.
      destruct (count_body_supported host c action d0 Hgen) as [-> ->].
      split; [|lia]. repeat case_match; lia. }
    destruct (run_attempts host (body_of c) _ d) as [[d1 evs] r]; simpl in *.
    rewrite !count_app, !count_wait_events by done. lia.
  - pose proof (emits_only_run host _ _ d (unsupported_emits c Hty)) as Hevs.
    rewrite !count_zero; [lia|..];
      (eapply Forall_impl; [exact Hevs|]; by intros ev [? ?]).
Qed.

Lemma run_attempts_true_count (body : Prog bool) (f : Event → bool)
    (n : nat) (d : D) :
  (∀ d, (run host body d).2 = inr true →
        (1 ≤ count f (run host body d).1.2)%nat) →
  (run_attempts host body n d).2 = inr true →
  (1 ≤ count f (run_attempts host body n d).1.2)%nat.
Proof.
  intros Hbody; revert d; induction n as [|n IH]; intros d; simpl; [done|].
  specialize (Hbody d).
  destruct (run host body d) as [[d1 evs] [e|[|]]]; simpl in *; try done.
  specialize (IH d1).
  destruct (run_attempts host body n d1) as [[d2 evs2] r]; simpl in *.
  intros Hr. rewrite count_app. specialize (IH Hr). lia.
Qed.

(** X6. A descriptor returns [true] only if an element operation was
    actually invoked: on no host is success reported without a primitive in
    the run. *)
Theorem true_means_primitive_ran (c : ElementConfig) (d : D) :
  (run host (performActionByConfig c) d).2 = inr true →
  (1 ≤ count is_primitive (run host (performActionByConfig c) d).1.2)%nat.
Proof.
  rewrite run_performActionByConfig, run_retry_loop_of.
  destruct (is_supported (type c)) eqn:Hty.
  - destruct (generateActionByType_supported_ex (type c) (value c) Hty)
      as [action Hgen].
    pose proof (run_attempts_true_count (body_of c) is_primitive
                  (Z.to_nat (retries_of c + 1)) d) as Hcount.
    destruct (run_attempts host (body_of c) _ d) as [[d1 evs] r]; simpl in *.
    intros Hr. rewrite count_app. apply Nat.le_trans with (count is_primitive evs);
      [|lia].
    apply Hcount; [|done]. intros d0.
    destruct (count_body_supported host c action d0 Hgen) as [_ ->].
    rewrite (run_body_supported host c action d0 Hgen), run_findAndPerformAction.
    destruct (host (QuerySelector (selector c)) d0) as [d2 [e|[el|]]];
      simpl; try done.
  - pose proof (run_attempts_not_true host (body_of c)
                  (Z.to_nat (retries_of c + 1)) d
                  (λ d0, body_unsupported_not_true host c d0 Hty)) as Hnot.
    by destruct (run_attempts host (body_of c) _ d) as [[d1 evs] r].
Qed.

Lemma run_attempts_false_count (body : Prog bool) (g : Event → bool)
    (n : nat) (d : D) :
  (∀ d, count g (run host body d).1.2 = 1%nat) →
  (run_attempts host body n d).2 = inr false →
  count g (run_attempts host body n d).1.2 = n.
Proof.
  intros Hbody; revert d; induction n as [|n IH]; intros d; simpl; [done|].
  specialize (Hbody d).
  destruct (run host body d) as [[d1 evs] [e|[|]]]; simpl in *; try done.
  specialize (IH d1).
  destruct (run_attempts host body n d1) as [[d2 evs2] r]; simpl in *.
  intros Hr. rewrite count_app, Hbody, IH by done. lia.
Qed.

(** X7. A descriptor of one of the four kinds returns [false] only after it
    has used every attempt: the run then contains exactly [retries + 1]
    lookups. *)
Theorem false_means_all_attempts (c : ElementConfig) (d : D) :
  is_supported (type c) = true →
  (run host (performActionByConfig c) d).2 = inr false →
  count is_query (run host (performActionByConfig c) d).1.2
  = Z.to_nat (retries_of c + 1).
Proof.
  intros Hty.
  destruct (generateActionByType_supported_ex (type c) (value c) Hty)
    as [action Hgen].
  rewrite run_performActionByConfig, run_retry_loop_of.
  pose proof (run_attempts_false_count (body_of c) is_query
                (Z.to_nat (retries_of c + 1)) d
                (λ d0, proj1 (count_body_supported host c action d0 Hgen)))
    as Hcount.
  destruct (run_attempts host (body_of c) _ d) as [[d1 evs] r]; simpl in *.
  intros Hr. rewrite count_app, count_wait_events by done. by rewrite Hcount.
Qed.

Lemma run_attempts_more (body : Prog bool) (n k : nat) (d : D) :
  (run_attempts host body n d).2 ≠ inr false →
  run_attempts host body (n + k) d = run_attempts host body n d.
Proof.
  revert d; induction n as [|n IH]; intros d; simpl; [done|].
  destruct (run host body d) as [[d1 evs] [e|[|]]]; simpl; try done.
  specialize (IH d1).
  destruct (run_attempts host body n d1) as [[d2 evs2] r]; simpl in *.
  intros Hr. by rewrite IH.
Qed.

(** X8. Allowing more retries never changes a run of [withRetry] that ended
    in success or in an escaping error: the same events, the same final host
    state, the same result. *)
Theorem more_retries_keep_a_settled_run (action : Prog bool)
    (onError : option Callback) (n m : Z) (d : D) :
  n ≤ m →
  (run host (withRetry action n onError) d).2 ≠ inr false →
  run host (withRetry action m onError) d
  = run host (withRetry action n onError) d.
Proof.
  intros Hnm. rewrite !run_withRetry. intros Hr.
  replace (Z.to_nat (m + 1))
    with (Z.to_nat (n + 1) + (Z.to_nat (m + 1) - Z.to_nat (n + 1)))%nat by lia.
  by apply run_attempts_more.
Qed.

(** X9. An observer that raises ends the loop of [withRetry] at once: when
    the thunk rejects and the observer called with that error raises, the
    wrapper is rejected with the observer's error after that single attempt,
    however many retries were allowed. *)
Theorem raising_observer_aborts (action : Prog bool) (id : nat) (n : Z)
    (d d1 d2 : D) (evs : list Event) (e e' : JsError) :
  0 ≤ n →
  run host action d = (d1, evs, inl e) →
  host (CallFn id e) d1 = (d2, inl e') →
  run host (withRetry action n (Some (UserFn id))) d
  = (d2, evs ++ [EvSusp Microtask; EvHost (CallFn id e)], inl e').
Proof.
  intros Hn Hact Hcb. rewrite run_withRetry.
  replace (Z.to_nat (n + 1)) with (S (Z.to_nat n)) by lia.
  simpl. rewrite run_withRetry_body, Hact. simpl. rewrite Hcb. simpl.
  by rewrite <- app_assoc.
Qed.

End EngineBounds.

Lemma true_means_primitive_ran_witness :
  (run quiet_host (performActionByConfig (click_a 2)) tt).2 = inr true
  ∧ (1 ≤ count is_primitive
           (run quiet_host (performActionByConfig (click_a 2)) tt).1.2)%nat.
Proof.
  split; [reflexivity|].
  apply (true_means_primitive_ran quiet_host (click_a 2) tt). reflexivity.
Defined.

Lemma false_means_all_attempts_witness :
  (run faulty_host (performActionByConfig (click_a 2)) tt).2 = inr false
  ∧ count is_query (run faulty_host (performActionByConfig (click_a 2)) tt).1.2
    = 3%nat.
Proof.
  split; [reflexivity|].
  apply (false_means_all_attempts faulty_host (click_a 2) tt); reflexivity.
Defined.

Lemma more_retries_keep_a_settled_run_witness :
  run late_host (withRetry (thunk_of (click_a 1)) 5 None) 0%nat
  = run late_host (withRetry (thunk_of (click_a 1)) 1 None) 0%nat.
Proof.
  apply (more_retries_keep_a_settled_run late_host (thunk_of (click_a 1))
           None 1 5 0%nat); [lia|discriminate].
Defined.

Lemma raising_observer_aborts_witness :
  run rethrowing_host (withRetry (thunk_of hover_config) 2 (Some (UserFn 7))) tt
  = (tt,
     [] ++ [EvSusp Microtask; EvHost (CallFn 7 (UnsupportedOperation "hover"))],
     inl (UnsupportedOperation "hover")).
Proof.
  apply (raising_observer_aborts rethrowing_host (thunk_of hover_config) 7 2
           tt tt tt [] (UnsupportedOperation "hover")
           (UnsupportedOperation "hover")); [lia|reflexivity|reflexivity].
Defined.

(** ** Further properties of the batch runner *)

Section BatchFacts.
Context {D : Type} (host : HostOf D).

Lemma event_loop_joined (sched : list nat) (b : Batch) (d : D)
    (o : JsError + list bool) :
  joined b = Some o → joined (event_loop host sched b d).2 = Some o.
Proof.
  revert b d; induction sched as [|i sched IH]; intros b d Hb; simpl; [done|].
  destruct (resume host i (tasks b) d) as [d1 pool]. apply IH. simpl.
  by rewrite Hb.
Qed.

Lemma event_loop_nil_tasks (sched : list nat) (b : Batch) (d : D) :
  tasks b = [] → (event_loop host sched b d).1 = d.
Proof.
  revert b; induction sched as [|i sched IH]; intros b Hb; simpl; [done|].
  unfold resume. rewrite Hb. simpl. by apply IH.
Qed.

(** X10. The batch of no descriptor is fulfilled with the empty list under
    every schedule and leaves the page as it is. *)
Theorem empty_batch (sched : list nat) (d : D) :
  performActionsByConfigs host [] sched d = (d, Some (inr [])).
Proof.
  unfold performActionsByConfigs, run_batch. simpl.
  pose proof (event_loop_joined sched
                {| tasks := []; joined := Some (inr []) |} d (inr []) eq_refl)
    as Hj.
  pose proof (event_loop_nil_tasks sched
                {| tasks := []; joined := Some (inr []) |} d eq_refl) as Hd.
  change (settle None []) with (Some (inr [] : JsError + list bool)).
  destruct (event_loop host sched _ d) as [d1 b]; simpl in *.
  by rewrite Hj, Hd.
Qed.

Lemma event_loop_single (p : Prog bool) (d0 : D) (sched : list nat)
    (st : Status bool) (d : D) :
  outcome_of host st d = (run host p d0).2 →
  ∃ st' d',
    event_loop host sched {| tasks := [st]; joined := joined_of st |} d
    = (d', {| tasks := [st']; joined := joined_of st' |})
    ∧ outcome_of host st' d' = (run host p d0).2.
Proof.
  revert st d; induction sched as [|i sched IH]; intros st d Hst;
    [by exists st, d|].
  cbn [event_loop tasks joined].
  destruct (resume host i [st] d) as [d1 pool] eqn:Hres.
  unfold resume in Hres. destruct i as [|i]; simpl in Hres.
  - destruct st as [v|e|k]; simplify_eq; [by apply IH..|].
    pose proof (outcome_of_step host k d) as Hstep.
    destruct (step host k d) as [[d2 evs] st1]; simplify_eq/=.
    destruct (IH st1 d1) as (st' & d' & Hloop & Hout); [by rewrite Hstep|].
    exists st', d'. split; [|done]. rewrite <- Hloop. by destruct st1.
  - rewrite ?lookup_nil in Hres. simplify_eq.
    destruct (IH st d1 Hst) as (st' & d' & Hloop & Hout).
    exists st', d'. split; [|done]. rewrite <- Hloop. by destruct st.
Qed.

(** X11. A batch of one descriptor behaves as the descriptor alone: whenever
    its promise is settled, it is fulfilled with the one-element list of the
    value, or rejected with the error, that running the descriptor by itself
    from the same page gives. *)
Theorem singleton_batch (c : ElementConfig) (sched : list nat) (d : D) :
  match (performActionsByConfigs host [c] sched d).2 with
  | Some (inr bs) =>
      ∃ b, bs = [b] ∧ (run host (performActionByConfig c) d).2 = inr b
  | Some (inl e) => (run host (performActionByConfig c) d).2 = inl e
  | None => True
  end.
Proof.
  unfold performActionsByConfigs, run_batch.
  change (performActionByConfig <$> [c]) with [performActionByConfig c].
  cbn [start_all].
  pose proof (outcome_of_step host (performActionByConfig c) d) as Hstep.
  destruct (step host (performActionByConfig c) d) as [[d1 evs] st].
  cbn [fst snd] in Hstep.
  replace (settle None [st]) with (joined_of st) by (by destruct st).
  destruct (event_loop_single (performActionByConfig c) d sched st d1 Hstep)
    as (st' & d' & -> & Hout).
  destruct st' as [v|e|k]; simpl in *; eauto.
Qed.

End BatchFacts.

(** ** The engine without policy *)

Section DemoFacts.
Context {D : Type} (host : HostOf D).

(** X12. For a descriptor of one of the four kinds without delay and
    without retries, [performActionByConfig] with policy does what the one of
    [demo.js] does, followed by one more suspension: the same calls to the
    page, the same final state, the same boolean.  For a kind outside the
    four the one of [demo.js] is rejected with [UnsupportedOperation] before
    any call to the page. *)
Theorem policy_free_descriptor_agrees_with_demo (c : ElementConfig) (d : D) :
  (is_supported (type c) = true →
   retries_of c = 0 →
   default 0 (waitBefore c) ≤ 0 →
   run host (performActionByConfig c) d
   = let '(d1, evs, r) := run host (Demo.performActionByConfig c) d in
     (d1, evs ++ [EvSusp Microtask], r))
  ∧ (is_supported (type c) = false →
     run host (Demo.performActionByConfig c) d
     = (d, [], inl (UnsupportedOperation (type c)))).
Proof.
  change (Demo.performActionByConfig c) with (thunk_of c). split.
  - intros Hty Hretries Hwait.
    destruct (generateActionByType_supported_ex (type c) (value c) Hty)
      as [action Hgen].
    rewrite run_performActionByConfig, run_retry_loop_of, Hretries. simpl.
    unfold wait_events. rewrite bool_decide_eq_false_2 by lia. simpl.
    rewrite (run_body_supported host c action d Hgen).
    rewrite (thunk_of_supported c action Hgen).
    destruct (run host (findAndPerformAction (selector c) action) d)
      as [[d1 evs] [e|[|]]]; simpl; try done.
    by rewrite app_nil_r.
  - intros Hty. by rewrite thunk_of_unsupported.
Qed.

Lemma never_rejects_findAndPerformAction (sel : string) (action : Action) :
  never_rejects host (findAndPerformAction sel action).
Proof.
  apply never_rejects_try_catch. intros e. repeat constructor.
Qed.

Lemma never_rejects_demo (c : ElementConfig) :
  is_supported (type c) = true →
  never_rejects host (Demo.performActionByConfig c).
Proof.
  intros Hty. change (Demo.performActionByConfig c) with (thunk_of c).
  destruct (generateActionByType_supported_ex (type c) (value c) Hty)
    as [action Hgen].
  rewrite (thunk_of_supported c action Hgen).
  apply never_rejects_findAndPerformAction.
Qed.

Lemma start_all_app (ps1 ps2 : list (Prog bool)) (d : D) :
  start_all host (ps1 ++ ps2) d =
    let '(d1, s1) := start_all host ps1 d in
    let '(d2, s2) := start_all host ps2 d1 in
    (d2, s1 ++ s2).
Proof.
  revert d; induction ps1 as [|p ps1 IH]; intros d; simpl.
  - by destruct (start_all host ps2 d).
  - destruct (step host p d) as [[d1 evs] st]. rewrite IH.
    destruct (start_all host ps1 d1) as [d2 s1].
    by destruct (start_all host ps2 d2) as [d3 s2].
Qed.

Lemma first_rejection_app (s1 s2 : list (Status bool)) :
  Forall (status_ok host) s1 →
  first_rejection (s1 ++ s2) = first_rejection s2.
Proof.
  unfold first_rejection.
  induction 1 as [|[a|e|k] s1 Hst _ IH]; simpl; done.
Qed.

(** X13. The batch runner of [demo.js] is rejected as soon as it starts when
    a descriptor has a kind outside the four: under every schedule its
    promise is rejected with the [UnsupportedOperation] error of the first
    such descriptor.  When every descriptor has one of the four kinds it is
    never rejected. *)
Theorem demo_batch_is_rejected_by_unsupported_kind
    (configs : list ElementConfig) (sched : list nat) (d : D) :
  (∀ pre c post,
     configs = pre ++ c :: post →
     Forall (λ c', is_supported (type c') = true) pre →
     is_supported (type c) = false →
     (Demo_performActionsByConfigs host configs sched d).2
     = Some (inl (UnsupportedOperation (type c))))
  ∧ (Forall (λ c', is_supported (type c') = true) configs →
     ∀ e, (Demo_performActionsByConfigs host configs sched d).2 ≠ Some (inl e)).
Proof.
  split.
  - intros pre c post -> Hpre Hc.
    unfold Demo_performActionsByConfigs, run_batch.
    rewrite fmap_app, fmap_cons, start_all_app.
    assert (Hok : Forall (status_ok host)
                    (start_all host (Demo.performActionByConfig <$> pre) d).2).
    { apply start_all_ok, Forall_fmap.
      eapply Forall_impl; [exact Hpre|]. intros c' Hc'. by apply never_rejects_demo. }
    destruct (start_all host (Demo.performActionByConfig <$> pre) d) as [d1 s1].
    simpl in Hok. simpl.
    change (Demo.performActionByConfig c) with (thunk_of c).
    rewrite thunk_of_unsupported by done. simpl.
    destruct (start_all host (Demo.performActionByConfig <$> post) d1) as [d2 s2].
    pose proof (event_loop_joined host sched
      {| tasks := s1 ++ Rejected (UnsupportedOperation (type c)) :: s2;
         joined := settle None
                     (s1 ++ Rejected (UnsupportedOperation (type c)) :: s2) |}
      d2 (inl (UnsupportedOperation (type c)))) as Hj.
    destruct (event_loop host sched _ d2) as [d3 b]; simpl in *.
    apply Hj. by rewrite (first_rejection_app s1 _ Hok).
  - intros Hall e. unfold Demo_performActionsByConfigs.
    assert (Hps : Forall (never_rejects host)
                    (Demo.performActionByConfig <$> configs)).
    { apply Forall_fmap. eapply Forall_impl; [exact Hall|].
      intros c' Hc'. by apply never_rejects_demo. }
    pose proof (run_batch_inv host _ sched d Hps) as (_ & _ & Hjoin).
    destruct (run_batch host _ sched d) as [d1 b]; simpl in *.
    rewrite Hjoin. by destruct (all_values (tasks b)).
Qed.

End DemoFacts.

Lemma policy_free_descriptor_agrees_with_demo_witness :
  run quiet_host (performActionByConfig (config "#a" "click")) tt
  = (tt,
     [EvHost (QuerySelector "#a"); EvHost (Click 1%nat); EvSusp Microtask]
       ++ [EvSusp Microtask],
     inr true)
  ∧ run quiet_host (Demo.performActionByConfig (config "#a" "hover")) tt
    = (tt, [], inl (UnsupportedOperation "hover")).
Proof.
  destruct (policy_free_descriptor_agrees_with_demo quiet_host
              (config "#a" "click") tt) as [Hsame _].
  destruct (policy_free_descriptor_agrees_with_demo quiet_host
              (config "#a" "hover") tt) as [_ Hrej].
  split; [apply Hsame; [reflexivity|reflexivity|simpl; lia]|].
  apply Hrej. reflexivity.
Defined.

Lemma demo_batch_is_rejected_by_unsupported_kind_witness :
  (Demo_performActionsByConfigs quiet_host
     ([config "#a" "click"] ++ config "#b" "hover" :: [config "#a" "drag"])
     [0; 1; 2]%nat tt).2
  = Some (inl (UnsupportedOperation "hover"))
  ∧ ∀ e, (Demo_performActionsByConfigs quiet_host Demo.configExamples
            [0; 1; 2; 3; 4]%nat tt).2 ≠ Some (inl e).
Proof.
  split.
  - destruct (demo_batch_is_rejected_by_unsupported_kind quiet_host
                ([config "#a" "click"] ++ config "#b" "hover"
                   :: [config "#a" "drag"]) [0; 1; 2]%nat tt) as [Hrej _].
    apply (Hrej [config "#a" "click"] (config "#b" "hover")
             [config "#a" "drag"]); [reflexivity| |reflexivity].
    by repeat constructor.
  - destruct (demo_batch_is_rejected_by_unsupported_kind quiet_host
                Demo.configExamples [0; 1; 2; 3; 4]%nat tt) as [_ Hok].
    apply Hok. by repeat constructor.
Defined.

(** ** Further properties of the recorder *)

Lemma call_handler_fields (h : Handler) (event : DomEvent) (r : VisualRecorder) :
  eventListeners (call_handler h event r) = eventListeners r
  ∧ isFirstClick (call_handler h event r)
    = match h with
      | HandleClick => false
      | _ => isFirstClick r
      end
  ∧ recordedConfig r `prefix_of` recordedConfig (call_handler h event r).
Proof.
  destruct h; simpl; unfold _handleClick, _handleInput, _handleFocus, push.
  - destruct (isFirstClick r) eqn:Hf; simpl; repeat split; try done.
    by apply prefix_app_r.
  - repeat split. by apply prefix_app_r.
  - repeat split. by apply prefix_app_r.
Qed.

Lemma deliver_fields (event : DomEvent) (ls : list (string * Listener))
    (r : VisualRecorder) :
  eventListeners (deliver event ls r) = eventListeners r
  ∧ (isFirstClick r = false → isFirstClick (deliver event ls r) = false)
  ∧ recordedConfig r `prefix_of` recordedConfig (deliver event ls r).
Proof.
  revert r; induction ls as [|[ty l] ls IH]; intros r; [done|].
  unfold deliver in *. cbn [foldl].
  destruct (String.eqb ty (ev_type event)); [|apply IH].
  destruct (call_handler_fields (handler l) event r) as (He & Hf & Hp).
  destruct (IH (call_handler (handler l) event r)) as (He' & Hf' & Hp').
  split; [congruence|]. split; [|by etrans].
  intros Hr. apply Hf'. rewrite Hf. by destruct (handler l).
Qed.

Lemma exec_op_fields (op : Op) (pg : Page) :
  (isFirstClick (recorder pg) = false →
   isFirstClick (recorder (exec_op pg op)) = false)
  ∧ getRecordedConfig pg `prefix_of` getRecordedConfig (exec_op pg op).
Proof.
  destruct op as [| |event]; [done|done|].
  destruct (deliver_fields event (document_listeners pg) (recorder pg))
    as (_ & Hf & Hp).
  split; [exact Hf|exact Hp].
Qed.

(** X14. The recorder only ever appends: whatever is done to a page, the
    descriptors recorded before are still there afterwards, unchanged and in
    the same order, at the front of the list. *)
Theorem recorded_list_only_grows (ops : list Op) (pg : Page) :
  getRecordedConfig pg `prefix_of` getRecordedConfig (exec_ops ops pg).
Proof.
  unfold exec_ops. revert pg; induction ops as [|op ops IH]; intros pg; [done|].
  cbn [foldl]. etrans; [|apply IH]. apply exec_op_fields.
Qed.

(** X15. The skip of the first click happens once in the life of a recorder:
    once the flag is cleared nothing sets it again, neither [stopRecording]
    nor a new [startRecording]. *)
Theorem first_click_flag_is_never_reset (ops : list Op) (pg : Page) :
  isFirstClick (recorder pg) = false →
  isFirstClick (recorder (exec_ops ops pg)) = false.
Proof.
  unfold exec_ops. revert pg; induction ops as [|op ops IH]; intros pg Hpg;
    [done|].
  cbn [foldl]. apply IH. by apply exec_op_fields.
Qed.

Lemma first_click_flag_is_never_reset_witness :
  isFirstClick (recorder (dispatch (click_on "go") (startRecording new_page)))
  = false
  ∧ isFirstClick
      (recorder
         (exec_ops [OpStop; OpStart; OpDispatch (click_on "go")]
            (dispatch (click_on "go") (startRecording new_page)))) = false.
Proof.
  assert (H : isFirstClick
                (recorder (dispatch (click_on "go") (startRecording new_page)))
              = false) by (lazy; reflexivity).
  split; [exact H|].
  apply (first_click_flag_is_never_reset
           [OpStop; OpStart; OpDispatch (click_on "go")] _ H).
Defined.

(** X16. The selector the recorder computes is empty exactly for an element
    without [id], and otherwise determines the [id]: two elements get the
    same selector only if they have the same [id]. *)
Theorem selector_determines_id (a b : Element) :
  (_getElementSelector a = "" ↔ elem_id a = "")
  ∧ (_getElementSelector a = _getElementSelector b → elem_id a = elem_id b).
Proof.
  unfold _getElementSelector. split.
  - destruct (String.eqb_spec (elem_id a) ""); simpl; split; done.
  - destruct (String.eqb_spec (elem_id a) ""), (String.eqb_spec (elem_id b) "");
      simpl; intros Heq; simplify_eq; congruence.
Qed.

(** What one event does to a recorder whose page has the listeners of a
    single [startRecording]. *)
Lemma deliver_first_listeners (event : DomEvent) (r : VisualRecorder) :
  deliver event first_listeners r =
    if String.eqb (ev_type event) "click" then _handleClick event r
    else if String.eqb (ev_type event) "input" then _handleInput event r
    else if String.eqb (ev_type event) "focus" then _handleFocus event r
    else r.
Proof.
  unfold deliver, first_listeners. cbn -[String.eqb].
  rewrite (String.eqb_sym "click"), (String.eqb_sym "input"),
    (String.eqb_sym "focus").
  destruct (String.eqb_spec (ev_type event) "click") as [->|]; [done|].
  destruct (String.eqb_spec (ev_type event) "input") as [->|]; [done|].
  done.
Qed.

Lemma dispatch_all_listening (events : list DomEvent) (pg : Page) :
  document_listeners pg = first_listeners →
  document_listeners (dispatch_all events pg) = first_listeners
  ∧ eventListeners (recorder (dispatch_all events pg))
    = eventListeners (recorder pg)
  ∧ isFirstClick (recorder (dispatch_all events pg))
    = isFirstClick (recorder pg) && negb (existsb is_click events).
Proof.
  unfold dispatch_all. revert pg; induction events as [|ev events IH];
    intros pg Hls; cbn [foldl existsb].
  - by rewrite andb_true_r.
  - destruct (IH (dispatch ev pg) Hls) as (Hls' & He & Hf).
    split; [done|]. rewrite He, Hf.
    change (recorder (dispatch ev pg))
      with (deliver ev (document_listeners pg) (recorder pg)).
    split; [apply deliver_fields|].
    rewrite Hls, deliver_first_listeners. unfold is_click.
    destruct (String.eqb (ev_type ev) "click").
    + unfold _handleClick. cbn [orb negb]. rewrite andb_false_r.
      by destruct (isFirstClick (recorder pg)) eqn:Hflag; simpl; rewrite ?Hflag.
    + cbn [orb].
      by destruct (String.eqb (ev_type ev) "input"),
                  (String.eqb (ev_type ev) "focus").
Qed.

Lemma startRecording_first_listeners :
  document_listeners (startRecording new_page) = first_listeners.
Proof. lazy; reflexivity. Qed.

(** X17. After one [startRecording] on a fresh recorder every click and
    input event is recorded as it comes: an input event appends its
    descriptor (selector of the target, its current value), a click appends
    its descriptor unless it is the first click so far, and an event of
    another type, for which no listener is registered, appends nothing.
    (Focus events are left out: those of elements do not reach the
    document.) *)
Theorem recorder_records_each_event (events : list DomEvent) (event : DomEvent) :
  ev_type event ≠ "focus" →
  getRecordedConfig
    (dispatch event (dispatch_all events (startRecording new_page)))
  = getRecordedConfig (dispatch_all events (startRecording new_page))
    ++ (if String.eqb (ev_type event) "click" then
          if existsb is_click events then [click_descriptor event] else []
        else if String.eqb (ev_type event) "input" then [input_descriptor event]
        else []).
Proof.
  intros Hfocus.
  destruct (dispatch_all_listening events (startRecording new_page)
              startRecording_first_listeners) as (Hls & _ & Hf).
  unfold getRecordedConfig.
  change (recorder (dispatch event ?pg))
    with (deliver event (document_listeners pg) (recorder pg)).
  rewrite Hls, deliver_first_listeners.
  replace (isFirstClick (recorder (startRecording new_page))) with true in Hf
    by (lazy; reflexivity).
  destruct (String.eqb (ev_type event) "click").
  - unfold _handleClick. rewrite Hf. simpl.
    destruct (existsb is_click events); simpl; [done|by rewrite app_nil_r].
  - destruct (String.eqb (ev_type event) "input"); [done|].
    destruct (String.eqb_spec (ev_type event) "focus"); [done|].
    by rewrite app_nil_r.
Qed.

Lemma recorder_records_each_event_witness :
  getRecordedConfig
    (dispatch (click_on "go")
       (dispatch_all [click_on "arm"; input_on "user" "bob"]
          (startRecording new_page)))
  = getRecordedConfig
      (dispatch_all [click_on "arm"; input_on "user" "bob"]
         (startRecording new_page))
    ++ [click_descriptor (click_on "go")].
Proof.
  apply (recorder_records_each_event
           [click_on "arm"; input_on "user" "bob"] (click_on "go")).
  discriminate.
Defined.

(** *** Starting and stopping *)

Lemma removeEventListener_nil (kvs : list (string * Listener)) :
  foldr (λ '(ty, l) ls, removeEventListener ty l ls) [] kvs = [].
Proof. induction kvs as [|[ty l] kvs IH]; simpl; [done|]. by rewrite IH. Qed.

Lemma removeEventListener_cons (kvs : list (string * Listener))
    (entry : string * Listener) (ls : list (string * Listener)) :
  foldr (λ '(ty, l) ls, removeEventListener ty l ls) (entry :: ls) kvs
  = (if kept kvs entry then [entry] else [])
      ++ foldr (λ '(ty, l) ls, removeEventListener ty l ls) ls kvs.
Proof.
  induction kvs as [|[ty l] kvs IH]; [done|].
  cbn [foldr kept forallb]. rewrite IH. unfold removeEventListener at 1 3.
  rewrite List.filter_app. f_equal.
  destruct entry as [ty' l']. fold (kept kvs (ty', l')).
  destruct (kept kvs (ty', l')); cbn -[String.eqb];
    [|by rewrite andb_false_r].
  rewrite andb_true_r.
  by destruct (negb (String.eqb ty' ty && Nat.eqb (lid l') (lid l))).
Qed.

(** [stopRecording] keeps exactly the listeners that none of the remembered
    ones identifies, in their order. *)
Lemma removeEventListener_all (kvs ls : list (string * Listener)) :
  foldr (λ '(ty, l) ls, removeEventListener ty l ls) ls kvs
  = List.filter (kept kvs) ls.
Proof.
  induction ls as [|entry ls IH]; [apply removeEventListener_nil|].
  rewrite removeEventListener_cons, IH. cbn [List.filter].
  by destruct (kept kvs entry).
Qed.

Lemma page_inv_new : page_inv new_page.
Proof.
  split; [constructor|]. intros ty l. unfold new_page.
  cbn [recorder eventListeners]. by rewrite lookup_empty.
Qed.

Lemma page_inv_add (ty : string) (h : Handler) (pg : Page) :
  well_typed (ty, {| lid := next_lid pg; handler := h |}) →
  ty = "click" ∨ ty = "input" ∨ ty = "focus" →
  page_inv pg → page_inv (_addEventListener ty h pg).
Proof.
  intros Htyped Hty [Hls Hkeys]. split; cbn [_addEventListener document_listeners
    next_lid recorder eventListeners].
  - apply Forall_app; split.
    + eapply Forall_impl; [exact Hls|]. intros entry [Hlt Hwt]. split; [lia|done].
    + constructor; [split; [simpl; lia|done]|constructor].
  - intros ty' l. destruct (decide (ty = ty')) as [<-|Hne].
    + by rewrite lookup_insert_eq.
    + rewrite lookup_insert_ne by done. apply Hkeys.
Qed.

Lemma page_inv_start (pg : Page) : page_inv pg → page_inv (startRecording pg).
Proof.
  intros Hpg. unfold startRecording.
  repeat (apply page_inv_add; [done|tauto|]). done.
Qed.

Lemma page_inv_exec_op (op : Op) (pg : Page) :
  page_inv pg → page_inv (exec_op pg op).
Proof.
  intros [Hls Hkeys]. destruct op as [| |event].
  - by apply page_inv_start.
  - split; cbn [exec_op stopRecording document_listeners next_lid recorder
                  eventListeners].
    + rewrite removeEventListener_all.
      apply Forall_forall. intros entry Hin.
      apply list_elem_of_In, List.filter_In in Hin as [Hin _].
      apply list_elem_of_In in Hin.
      by apply (proj1 (Forall_forall _ _) Hls).
    + intros ty l. by rewrite lookup_empty.
  - split; [done|]. intros ty l.
    cbn [exec_op dispatch recorder].
    fold (deliver event (document_listeners pg) (recorder pg)).
    rewrite (proj1 (deliver_fields event _ _)). apply Hkeys.
Qed.

Lemma page_inv_exec_ops (ops : list Op) (pg : Page) :
  page_inv pg → page_inv (exec_ops ops pg).
Proof.
  unfold exec_ops. revert pg; induction ops as [|op ops IH]; intros pg Hpg;
    [done|].
  cbn [foldl]. apply IH. by apply page_inv_exec_op.
Qed.

Lemma start_stop_listeners (pg : Page) :
  page_inv pg →
  document_listeners (stopRecording (startRecording pg)) = document_listeners pg.
Proof.
  intros [Hls Hkeys].
  unfold stopRecording, startRecording, _addEventListener.
  cbn [document_listeners recorder eventListeners next_lid recordedConfig
         isFirstClick].
  set (n := next_lid pg).
  set (m := <["focus" := {| lid := S (S n); handler := HandleFocus |}]>
              (<["input" := {| lid := S n; handler := HandleInput |}]>
                 (<["click" := {| lid := n; handler := HandleClick |}]>
                    (eventListeners (recorder pg))))).
  assert (Hclick : m !! "click" = Some {| lid := n; handler := HandleClick |}).
  { unfold m. rewrite !lookup_insert_ne by done. apply lookup_insert_eq. }
  assert (Hinput : m !! "input" = Some {| lid := S n; handler := HandleInput |}).
  { unfold m. rewrite lookup_insert_ne by done. apply lookup_insert_eq. }
  assert (Hfocus : m !! "focus" = Some {| lid := S (S n); handler := HandleFocus |}).
  { unfold m. apply lookup_insert_eq. }
  assert (Hfresh : ∀ ty l, m !! ty = Some l → (n ≤ lid l)%nat).
  { intros ty l. unfold m.
    destruct (decide (ty = "focus")) as [->|];
      [rewrite lookup_insert_eq; intros; simplify_eq/=; lia|].
    rewrite lookup_insert_ne by done.
    destruct (decide (ty = "input")) as [->|];
      [rewrite lookup_insert_eq; intros; simplify_eq/=; lia|].
    rewrite lookup_insert_ne by done.
    destruct (decide (ty = "click")) as [->|];
      [rewrite lookup_insert_eq; intros; simplify_eq/=; lia|].
    rewrite lookup_insert_ne by done.
    intros Hl. destruct (Hkeys ty l Hl) as [?|[?|?]]; done. }
  assert (Hgone : ∀ ty l, m !! ty = Some l → kept (map_to_list m) (ty, l) = false).
  { intros ty l Hl. apply not_true_is_false. intros Hkept.
    unfold kept in Hkept. rewrite forallb_forall in Hkept.
    specialize (Hkept (ty, l)). cbn -[String.eqb] in Hkept.
    rewrite String.eqb_refl, Nat.eqb_refl in Hkept.
    assert (false = true); [|done]. apply Hkept.
    apply list_elem_of_In. by apply elem_of_map_to_list. }
  clearbody m. rewrite removeEventListener_all, !List.filter_app.
  cbn [List.filter].
  rewrite (Hgone _ _ Hclick), (Hgone _ _ Hinput), (Hgone _ _ Hfocus).
  rewrite !app_nil_r. apply List.forallb_filter_id.
  apply forallb_forall. intros [ty l] Hin.
  apply list_elem_of_In in Hin.
  destruct (proj1 (Forall_forall _ _) Hls _ Hin) as [Hlt _]. simpl in Hlt.
  unfold kept. apply forallb_forall. intros [ty' l'] Hin'.
  apply list_elem_of_In, elem_of_map_to_list in Hin'.
  apply Hfresh in Hin'. cbn -[String.eqb].
  replace (Nat.eqb (lid l) (lid l')) with false
    by (symmetry; apply Nat.eqb_neq; fold n in Hlt; lia).
  by rewrite andb_false_r.
Qed.

(** X18. Starting and then stopping leaves the listeners of the document as
    they were, whatever was done to the page before: [stopRecording] removes
    the three listeners of the latest [startRecording] and no other.  In
    particular a second [startRecording] without a stop in between leaves the
    listeners of the first one registered after the stop. *)
Theorem stop_removes_the_latest_listeners (ops : list Op) :
  document_listeners (stopRecording (startRecording (exec_ops ops new_page)))
  = document_listeners (exec_ops ops new_page)
  ∧ document_listeners (exec_ops [OpStart; OpStart; OpStop] new_page)
    = first_listeners.
Proof.
  split.
  - apply start_stop_listeners, page_inv_exec_ops, page_inv_new.
  - change (exec_ops [OpStart; OpStart; OpStop] new_page)
      with (stopRecording (startRecording (exec_ops [OpStart] new_page))).
    rewrite start_stop_listeners by apply page_inv_exec_ops, page_inv_new.
    apply startRecording_first_listeners.
Qed.

Lemma dispatch_all_no_listeners (events : list DomEvent) (pg : Page) :
  document_listeners pg = [] →
  getRecordedConfig (dispatch_all events pg) = getRecordedConfig pg.
Proof.
  unfold dispatch_all. revert pg; induction events as [|ev events IH];
    intros pg Hls; cbn [foldl]; [done|].
  rewrite IH by done. unfold getRecordedConfig, dispatch. cbn [recorder].
  by rewrite Hls.
Qed.

(** X19. After one [startRecording] on a fresh recorder, [stopRecording]
    ends the recording whatever events came in between: no listener is left
    on the document, and no later event changes the recorded list. *)
Theorem stop_ends_the_recording (events more : list DomEvent) :
  document_listeners
    (stopRecording (dispatch_all events (startRecording new_page))) = []
  ∧ getRecordedConfig
      (dispatch_all more
         (stopRecording (dispatch_all events (startRecording new_page))))
    = getRecordedConfig (dispatch_all events (startRecording new_page)).
Proof.
  assert (Hstop : document_listeners
            (stopRecording (dispatch_all events (startRecording new_page))) = []).
  { destruct (dispatch_all_listening events (startRecording new_page)
                startRecording_first_listeners) as (Hls & He & _).
    unfold stopRecording. cbn [document_listeners]. rewrite Hls, He.
    pose proof (start_stop_listeners new_page page_inv_new) as Hround.
    unfold stopRecording in Hround. cbn [document_listeners] in Hround.
    by rewrite startRecording_first_listeners in Hround. }
  split; [exact Hstop|]. by rewrite dispatch_all_no_listeners.
Qed.

Lemma deliver_input_count (event : DomEvent) (ls : list (string * Listener))
    (r : VisualRecorder) :
  ev_type event = "input" →
  Forall well_typed ls →
  recordedConfig (deliver event ls r)
  = recordedConfig r ++ replicate (listeners_for "input" ls) (input_descriptor event).
Proof.
  intros Hty Hls; revert r.
  induction Hls as [|[ty l] ls Hwt _ IH]; intros r;
    [by rewrite app_nil_r|].
  unfold deliver, listeners_for in *. cbn [foldl List.filter fst].
  replace (String.eqb ty "input") with (String.eqb ty (ev_type event))
    by (by rewrite Hty).
  destruct (String.eqb_spec ty (ev_type event)) as [Heq|Hne].
  - rewrite Hty in Heq. subst ty.
    unfold well_typed in Hwt. cbn [fst snd] in Hwt.
    destruct (handler l) eqn:Hh; try done.
    rewrite IH. cbn [call_handler _handleInput push recordedConfig length replicate].
    by rewrite <- app_assoc.
  - apply IH.
Qed.

Lemma iter_startRecording (n : nat) :
  page_inv (Nat.iter n startRecording new_page)
  ∧ getRecordedConfig (Nat.iter n startRecording new_page) = []
  ∧ listeners_for "input"
      (document_listeners (Nat.iter n startRecording new_page)) = n.
Proof.
  induction n as [|n (Hinv & Hrec & Hcount)]; [by split; [apply page_inv_new|]|].
  rewrite Nat.iter_succ.
  set (pg := Nat.iter n startRecording new_page) in *. clearbody pg.
  split; [by apply page_inv_start|]. split; [exact Hrec|].
  unfold listeners_for in *. unfold startRecording, _addEventListener.
  cbn [document_listeners]. rewrite !List.filter_app, !length_app, Hcount.
  cbn. lia.
Qed.

(** X20. Each [startRecording] registers listeners of its own: after [n]
    starts on a fresh recorder, with no stop in between, one input event is
    recorded [n] times. *)
Theorem repeated_start_duplicates_records (n : nat) (event : DomEvent) :
  ev_type event = "input" →
  getRecordedConfig (dispatch event (Nat.iter n startRecording new_page))
  = replicate n (input_descriptor event).
Proof.
  intros Hty. destruct (iter_startRecording n) as ([Hls _] & Hrec & Hcount).
  unfold getRecordedConfig in *.
  change (recorder (dispatch event ?pg))
    with (deliver event (document_listeners pg) (recorder pg)).
  rewrite deliver_input_count, Hrec, Hcount; [done|done|].
  eapply Forall_impl; [exact Hls|]. by intros entry [_ ?].
Qed.

Lemma repeated_start_duplicates_records_witness :
  getRecordedConfig
    (dispatch (input_on "user" "bob") (Nat.iter 2 startRecording new_page))
  = replicate 2 (input_descriptor (input_on "user" "bob")).
Proof.
  apply (repeated_start_duplicates_records 2 (input_on "user" "bob")).
  reflexivity.
Defined.

(** *** From the recorder to the engine *)

Lemma call_handler_supported (h : Handler) (event : DomEvent) (r : VisualRecorder) :
  Forall (λ c, is_supported (type c) = true) (recordedConfig r) →
  Forall (λ c, is_supported (type c) = true)
    (recordedConfig (call_handler h event r)).
Proof.
  intros Hr. destruct h; simpl; unfold _handleClick, _handleInput, _handleFocus.
  - destruct (isFirstClick r); simpl; [done|].
    apply Forall_app; split; [done|]. by repeat constructor.
  - simpl. apply Forall_app; split; [done|]. by repeat constructor.
  - simpl. apply Forall_app; split; [done|]. by repeat constructor.
Qed.

Lemma exec_ops_recorded (ops : list Op) :
  Forall (λ c, is_supported (type c) = true ∧ hardcoded_policy c)
    (getRecordedConfig (exec_ops ops new_page)).
Proof.
  unfold exec_ops.
  assert (Hnew : Forall (λ c, is_supported (type c) = true)
                   (getRecordedConfig new_page)
                 ∧ Forall hardcoded_policy (getRecordedConfig new_page))
    by (split; constructor).
  revert Hnew. generalize new_page as pg.
  induction ops as [|op ops IH]; intros pg [Hsup Hpol]; cbn [foldl].
  - apply Forall_and. by split.
  - apply IH. split; [|by apply exec_op_hardcoded].
    destruct op as [| |event]; [done|done|].
    unfold getRecordedConfig in *. cbn [exec_op dispatch recorder].
    revert Hsup. generalize (recorder pg) as r.
    induction (document_listeners pg) as [|[ty l] ls IHls]; intros r Hr;
      cbn [foldl]; [done|].
    apply IHls. destruct (String.eqb ty (ev_type event)); [|done].
    by apply call_handler_supported.
Qed.

Section Replay.
Context {D : Type} (host : HostOf D).

Lemma never_rejects_unobserved (action : Prog bool) (n : Z) :
  never_rejects host (withRetry action n None).
Proof.
  unfold withRetry. generalize 0 as i.
  induction (Z.to_nat (n + 1)) as [|fuel IH]; intros i; simpl;
    case_bool_decide; try constructor.
  apply never_rejects_bind.
  - apply never_rejects_try_catch. intros e. repeat constructor.
  - intros [|]; [constructor|apply IH].
Qed.

(** X21. Every descriptor the recorder ever produces can be replayed: its
    kind is one of the four, so on every host the engine returns a boolean
    for it and never calls the [onError] function the recorder attached (the
    run is the same without it); the run waits once, 200 ms, before its
    attempts. *)
Theorem recorded_descriptor_replays (ops : list Op) (c : ElementConfig) (d : D) :
  c ∈ getRecordedConfig (exec_ops ops new_page) →
  is_supported (type c) = true
  ∧ (∃ b : bool, (run host (performActionByConfig c) d).2 = inr b)
  ∧ run host (performActionByConfig (set_onError None c)) d
    = run host (performActionByConfig c) d
  ∧ List.filter is_timer (run host (performActionByConfig c) d).1.2
    = [EvSusp (Timer 200)].
Proof.
  intros Hc.
  destruct (proj1 (Forall_forall _ _) (exec_ops_recorded ops) c Hc)
    as [Hty [Hwait _]].
  pose proof (run_performActionByConfig_observer host c None d Hty) as Hsame.
  split; [done|]. split; [|split; [done|]].
  - rewrite <- Hsame. apply run_never_rejects.
    rewrite performActionByConfig_unfold.
    case_bool_decide; repeat constructor; apply never_rejects_unobserved.
  - rewrite run_performActionByConfig.
    pose proof (emits_only_run host _ (retry_loop_of c) d
                  (untimed_withRetry _ _ _ (untimed_thunk c))) as Hloop.
    destruct (run host (retry_loop_of c) d) as [[d1 evs] r]; simpl in *.
    unfold wait_events. rewrite Hwait. simpl.
    f_equal. clear -Hloop. induction Hloop as [|ev evs Hev _ IH]; [done|].
    simpl. by rewrite Hev.
Qed.

End Replay.

Lemma recorded_descriptor_replays_witness :
  input_descriptor (input_on "b" "x")
    ∈ getRecordedConfig
        (exec_ops [OpStart; OpDispatch (input_on "b" "x")] new_page)
  ∧ (∃ b : bool,
       (run quiet_host (performActionByConfig (input_descriptor (input_on "b" "x")))
          tt).2 = inr b).
Proof.
  assert (Hin : input_descriptor (input_on "b" "x")
                  ∈ getRecordedConfig
                      (exec_ops [OpStart; OpDispatch (input_on "b" "x")] new_page)).
  { replace (getRecordedConfig
               (exec_ops [OpStart; OpDispatch (input_on "b" "x")] new_page))
      with [input_descriptor (input_on "b" "x")] by (lazy; reflexivity).
    apply list_elem_of_singleton. reflexivity. }
  split; [exact Hin|].
  destruct (recorded_descriptor_replays quiet_host
              [OpStart; OpDispatch (input_on "b" "x")] _ tt Hin)
    as (_ & Hb & _).
  exact Hb.
Defined.

Lemma selector_determines_id_witness :
  _getElementSelector (button "go") = _getElementSelector (button "go")
  ∧ elem_id (button "go") = elem_id (button "go")
  ∧ (_getElementSelector (button "") = "" ↔ elem_id (button "") = "").
Proof.
  destruct (selector_determines_id (button "go") (button "go")) as [_ Hinj].
  destruct (selector_determines_id (button "") (button "go")) as [Hempty _].
  split; [reflexivity|]. split; [apply Hinj; reflexivity|exact Hempty].
Defined.
